(** * Reading-order inference: [surya/ordering.py]

    A shallow embedding of [get_batch_size], [rank_elements] and
    [batch_ordering], and the properties of the decoding loop, the
    structural reordering and the result assembly that hold on it.

    Python lists are [list]s, list positions are [nat], Python integers
    are [Z].  An exception is a value of [exn]; a statement that may
    raise lives in the [result] monad.  The preprocessor and the model
    are external: they are parameters of the pipeline. *)

From Stdlib Require Import QArith.
From stdpp Require Import base tactics option numbers strings sorting list.

Local Open Scope Z_scope.

(** ** Exceptions *)

Inductive exn : Set :=
  | AssertionError
  | TypeError
  | IndexError
  | ValueError.

Inductive result (A : Type) : Type :=
  | Ok (a : A)
  | Err (e : exn).
Arguments Ok {A} a.
Arguments Err {A} e.

#[global] Instance result_ret : MRet result := λ A a, Ok a.
#[global] Instance result_bind : MBind result := λ A B f m,
  match m with
  | Ok a => f a
  | Err e => Err e
  end.

Definition py_assert (b : bool) : result unit :=
  if b then Ok tt else Err AssertionError.

(** [for x in xs: acc = body(x, acc)], stopping at the first exception. *)
Fixpoint for_each {A S : Type} (body : A → S → result S) (xs : list A) (acc : S)
    : result S :=
  match xs with
  | [] => Ok acc
  | x :: xs' => acc' ← body x acc; for_each body xs' acc'
  end.

(** [l[i]] for a position [i] counted from the front. *)
Definition py_getitem {A : Type} (l : list A) (i : nat) : result A :=
  match l !! i with
  | Some x => Ok x
  | None => Err IndexError
  end.

(** [l[i] = v] *)
Definition py_setitem {A : Type} (l : list A) (i : nat) (v : A) : result (list A) :=
  if decide (i < length l)%nat then Ok (<[i := v]> l) else Err IndexError.

(** [enumerate(l)] *)
Definition enumerate {A : Type} (l : list A) : list (nat * A) :=
  imap (λ i x, (i, x)) l.

(** ** [sorted(l, key=...)]

    Python's [sorted] is stable and compares keys with [<] only; a
    stable sort has one possible result, and insertion computes it.
    Every key in this file is an integer.  The element [x] in front of
    an already sorted tail goes behind the elements with a smaller key
    and in front of the first element whose key is not smaller. *)

Fixpoint insert_by {A : Type} (key : A → Z) (x : A) (l : list A) : list A :=
  match l with
  | [] => [x]
  | y :: l' => if key y <? key x then y :: insert_by key x l' else x :: y :: l'
  end.

Definition sorted {A : Type} (key : A → Z) (l : list A) : list A :=
  foldr (insert_by key) [] l.

(** ** [get_batch_size] *)

Record Settings : Type := {
  ORDER_BATCH_SIZE : option Z;
  TORCH_DEVICE_MODEL : string;
  ORDER_MAX_BOXES : Z;
}.

Definition get_batch_size (settings : Settings) : Z :=
  match ORDER_BATCH_SIZE settings with
  | Some batch_size => batch_size
  | None =>
      let batch_size := 4 in
      let batch_size :=
        if String.eqb (TORCH_DEVICE_MODEL settings) "mps" then 4 else batch_size in
      let batch_size :=
        if String.eqb (TORCH_DEVICE_MODEL settings) "cuda" then 32 else batch_size in
      batch_size
  end.

(** ** [rank_elements] *)

Definition rank_elements (arr : list Z) : list Z :=
  let enumerated_and_sorted := sorted snd (enumerate arr) in
  let rank := replicate (length arr) 0 in
  foldl (λ rank '(rank_value, (original_index, value)),
           <[original_index := Z.of_nat rank_value]> rank)
        rank (enumerate enumerated_and_sorted).

(** ** Data model *)

(** A box is its four coordinates; the code only passes boxes on. *)
Definition Box : Type := list Q.

Record Image : Type := {
  mode : string;
  size : Z * Z;
}.

(** [image.convert("RGB")] keeps the dimensions. *)
Definition convert_RGB (image : Image) : Image :=
  {| mode := "RGB"; size := size image |}.

(** [OrderBox] and [OrderResult] of [surya.schema].  The schema is not
    among these files; it checks that a [bbox] has four coordinates, and
    the record takes the box as it is handed in. *)
Record OrderBox : Type := {
  bbox : Box;
  position : Z;
}.

Record OrderResult : Type := {
  bboxes : list OrderBox;
  image_bbox : list Z;
}.

(** ** Logits

    A row of logits is a list of scores.  The code only compares scores
    and overwrites them with [-1e9], so rationals stand for the floats. *)

Definition Qltb (x y : Q) : bool := negb (Qle_bool y x).

Definition masked_score : Q := (- (1000000000 # 1))%Q.

(** [torch.argmax] of a one-dimensional tensor: the first position that
    holds the largest score; an empty tensor raises. *)
Fixpoint argmax_from (best_pos : nat) (best : Q) (pos : nat) (row : list Q) : nat :=
  match row with
  | [] => best_pos
  | x :: row' =>
      if Qltb best x then argmax_from pos x (S pos) row'
      else argmax_from best_pos best (S pos) row'
  end.

Definition argmax (row : list Q) : result nat :=
  match row with
  | [] => Err IndexError
  | x :: row' => Ok (argmax_from 0 x 1 row')
  end.

(** [row[idxs] = -1e9] with a list of integer indices: a negative index
    counts from the end, an index outside [-len, len) raises. *)
Definition tensor_index (len : nat) (idx : Z) : result nat :=
  if decide (0 ≤ idx < Z.of_nat len) then Ok (Z.to_nat idx)
  else if decide (- Z.of_nat len ≤ idx < 0) then Ok (Z.to_nat (idx + Z.of_nat len))
  else Err IndexError.

Definition index_fill (row : list Q) (idxs : list Z) (v : Q) : result (list Q) :=
  for_each (λ idx row', i ← tensor_index (length row) idx; Ok (<[i := v]> row'))
           idxs row.

(** ** Loop targets

    The items a [for] statement walks over, and the binding of a target
    list of one name ([for j, in ...]) to an item: the item must be an
    iterable of exactly one element. *)
Inductive pyval : Type :=
  | PyInt (n : Z)
  | PyTuple (items : list Z).

Definition unpack1 (item : pyval) : result pyval :=
  match item with
  | PyInt _ => Err TypeError
  | PyTuple [x] => Ok (PyInt x)
  | PyTuple _ => Err ValueError
  end.

(** A value used as a list position. *)
Definition as_index (v : pyval) : result nat :=
  match v with
  | PyInt n => if decide (0 ≤ n) then Ok (Z.to_nat n) else Err IndexError
  | PyTuple _ => Err TypeError
  end.

(** [range(n)] *)
Definition py_range (n : nat) : list pyval :=
  (λ k, PyInt (Z.of_nat k)) <$> seq 0 n.

(** [range(0, stop, step)]: a zero step raises, a negative one gives
    nothing. *)
Definition py_range_step (stop : nat) (step : Z) : result (list nat) :=
  if decide (step = 0) then Err ValueError
  else if decide (step < 0) then Ok []
  else
    let s := Z.to_nat step in
    Ok ((λ k, k * s)%nat <$> seq 0 ((stop + s - 1) / s)%nat).

(** [l[i:i+n]] *)
Definition slice {A : Type} (l : list A) (i n : nat) : list A :=
  take n (drop i l).

(** ** Structural reordering (lines 113-127)

    A row of [combined] is [[i, bbox, label, rank]]. *)

Record Row : Type := {
  row_index : nat;
  row_bbox : Box;
  row_label : string;
  row_rank : Z;
}.

Definition set_rank (rank : Z) (row : Row) : Row :=
  {| row_index := row_index row; row_bbox := row_bbox row;
     row_label := row_label row; row_rank := rank |}.

(** [zip(a, b, c)] stops at the shortest argument. *)
Definition zip3 {A B C : Type} (a : list A) (b : list B) (c : list C)
    : list (A * B * C) :=
  zip (zip a b) c.

Definition reorder (row_bboxes : list Box) (row_label_list : list string)
    (ranks : list Z) : list Box * list Z :=
  let combined :=
    imap (λ i '(bbox, label, rank),
            {| row_index := i; row_bbox := bbox; row_label := label; row_rank := rank |})
         (zip3 row_bboxes row_label_list ranks) in
  let combined := sorted row_rank combined in
  let sorted_boxes :=
    filter (λ row, row_label row = "Page-header") combined ++
    filter (λ row, row_label row ∉ ["Page-header"; "Page-footer"]) combined ++
    filter (λ row, row_label row = "Page-footer") combined in
  let sorted_boxes := imap (λ rank row, set_rank (Z.of_nat rank) row) sorted_boxes in
  let sorted_boxes := sorted (λ row, Z.of_nat (row_index row)) sorted_boxes in
  (row_bbox <$> sorted_boxes, row_rank <$> sorted_boxes).

(** ** Validation and result assembly for one sample (lines 105-141) *)

Definition order_row (bboxes_all : list (list Box))
    (labels : option (list (list string))) (orig_sizes : list (Z * Z))
    (i j : nat) (row_pred : list Z) : result OrderResult :=
  row_bboxes ← py_getitem bboxes_all (i + j);
  _ ← py_assert (bool_decide (length row_pred = length row_bboxes));
  orig_size ← py_getitem orig_sizes j;
  let ranks := rank_elements row_pred in
  '(row_bboxes, ranks) ←
    match labels with
    | Some labels =>
        row_label_list ← py_getitem labels (i + j);
        Ok (reorder row_bboxes row_label_list ranks)
    | None => Ok (row_bboxes, ranks)
    end;
  let order_boxes :=
    (λ '(row_bbox, rank), {| bbox := row_bbox; position := rank |})
      <$> zip row_bboxes ranks in
  Ok {| bboxes := order_boxes;
        image_bbox := [0; 0; orig_size.1; orig_size.2] |}.

(** The loop of line 104 over [enumerate(batch_predictions)], appending
    to [output_order]. *)
Definition assemble_batch (bboxes_all : list (list Box))
    (labels : option (list (list string))) (orig_sizes : list (Z * Z))
    (i : nat) (batch_predictions : list (list Z))
    (output_order : list OrderResult) : result (list OrderResult) :=
  for_each (λ '(j, row_pred) output_order,
              result ← order_row bboxes_all labels orig_sizes i j row_pred;
              Ok (output_order ++ [result]))
           (enumerate batch_predictions) output_order.

(** ** The checks on the labels (lines 38-41) *)

Definition check_labels (images : list Image) (bboxes_all : list (list Box))
    (labels : option (list (list string))) : result unit :=
  match labels with
  | None => Ok tt
  | Some labels =>
      _ ← py_assert (bool_decide (length labels = length images));
      for_each (λ '(l, b) _, py_assert (bool_decide (length l = length b)))
               (zip labels bboxes_all) tt
  end.

(** ** The external collaborators

    The preprocessor and the model are not part of this file: the
    pipeline takes them as parameters.  Pixel tensors, box counts, the
    decoder cache and the encoder state are opaque. *)

Inductive decoder_boxes : Type :=
  | InputBoxes (boxes : list (list (list Z)))
  | LastTokens (tokens : list (list Z)).

Inductive decoder_mask : Type :=
  | InputMask (mask : list (list Z))
  | LastTokenMask (mask : list (list Z)).

Section pipeline.
Context {Pixels Counts Cache Encoded : Type}.

Record ModelInputs : Type := {
  pixel_values : Pixels;
  input_boxes : list (list (list Z));
  input_boxes_mask : list (list Z);
  input_boxes_counts : Counts;
}.

Record ModelOutput : Type := {
  logits : list (list Q);
  out_past_key_values : Cache;
  encoder_last_hidden_state : Encoded;
}.

Record Processor : Type := {
  preprocess : list Image → list (list Box) → ModelInputs;
  token_pad_id : Z;
  box_size_height : Z;
}.

Definition Model : Type :=
  Pixels → decoder_boxes → decoder_mask → Counts →
  option Encoded → option Cache → ModelOutput.

Variable settings : Settings.
Variable processor : Processor.
Variable model : Model.

(** *** One sample of one decoding step (lines 81-91) *)

Record StepLists : Type := {
  last_tokens : list (list Z);
  last_token_mask : list (list Z);
  batch_predictions : list (list Z);
  done : list bool;
}.

Definition decode_row (logits : list (list Q)) (j : nat) (s : StepLists)
    : result StepLists :=
  logits_j ← py_getitem logits j;
  predictions_j ← py_getitem (batch_predictions s) j;
  new_logits ← index_fill logits_j predictions_j masked_score;
  pred ← argmax logits_j;
  let pred := Z.of_nat pred in
  let last_tokens := last_tokens s ++ [[pred; pred; pred; pred]] in
  if decide (pred = token_pad_id processor) then
    done ← py_setitem (done s) j true;
    Ok {| last_tokens := last_tokens;
          last_token_mask := last_token_mask s ++ [[0]];
          batch_predictions := batch_predictions s;
          done := done |}
  else
    Ok {| last_tokens := last_tokens;
          last_token_mask := last_token_mask s ++ [[1]];
          batch_predictions :=
            <[j := predictions_j ++ [pred - box_size_height processor]]>
              (batch_predictions s);
          done := done s |}.

(** *** The loop over the samples of a step (lines 78-91)

    Line 80 reads [for j, in range(logits.shape[0])]: the target [j,]
    is a target list of one name, and the items of [range] are
    integers.  Binding an integer to a target list raises [TypeError],
    so the body is not reached for any item. *)
Definition decode_rows (logits : list (list Q))
    (batch_predictions : list (list Z)) (done : list bool) : result StepLists :=
  for_each (λ item s,
              target ← unpack1 item;
              j ← as_index target;
              decode_row logits j s)
           (py_range (length logits))
           {| last_tokens := []; last_token_mask := [];
              batch_predictions := batch_predictions; done := done |}.

(** *** The decoding loop (lines 61-102)

    The variables the loop carries from one iteration to the next;
    [predictions] and [finished] are [batch_predictions] and [done]. *)

Record DecodeState : Type := {
  batch_bboxes : decoder_boxes;
  batch_bbox_mask : decoder_mask;
  past_key_values : option Cache;
  encoder_outputs : option Encoded;
  predictions : list (list Z);
  finished : list bool;
  token_count : Z;
  model_calls : nat;  (* not in the source: counts the calls of [model] *)
}.

(** One iteration; the boolean tells whether it left through [break]. *)
Definition decode_step (pixels : Pixels) (counts : Counts) (st : DecodeState)
    : result (DecodeState * bool) :=
  let return_dict :=
    model pixels (batch_bboxes st) (batch_bbox_mask st) counts
          (encoder_outputs st) (past_key_values st) in
  s ← decode_rows (logits return_dict) (predictions st) (finished st);
  if forallb id (done s) then
    Ok ({| batch_bboxes := batch_bboxes st;
           batch_bbox_mask := batch_bbox_mask st;
           past_key_values := past_key_values st;
           encoder_outputs := encoder_outputs st;
           predictions := batch_predictions s;
           finished := done s;
           token_count := token_count st;
           model_calls := S (model_calls st) |}, true)
  else
    Ok ({| batch_bboxes := LastTokens (last_tokens s);
           batch_bbox_mask := LastTokenMask (last_token_mask s);
           past_key_values := Some (out_past_key_values return_dict);
           encoder_outputs := Some (encoder_last_hidden_state return_dict);
           predictions := batch_predictions s;
           finished := done s;
           token_count := token_count st + 1;
           model_calls := S (model_calls st) |}, false).

(** [while token_count < settings.ORDER_MAX_BOXES]: [token_count]
    starts at 0 and grows by one per completed iteration, so the
    recursion is on the iterations that are left. *)
Fixpoint decode_while (left : nat) (pixels : Pixels) (counts : Counts)
    (st : DecodeState) : result DecodeState :=
  match left with
  | O => Ok st
  | S left' =>
      '(st', break) ← decode_step pixels counts st;
      if break : bool then Ok st' else decode_while left' pixels counts st'
  end.

Definition decode_init (model_inputs : ModelInputs) (batch_len : nat)
    : DecodeState :=
  {| batch_bboxes := InputBoxes (input_boxes model_inputs);
     batch_bbox_mask := InputMask (input_boxes_mask model_inputs);
     past_key_values := None;
     encoder_outputs := None;
     predictions := replicate batch_len [];
     finished := replicate batch_len false;
     token_count := 0;
     model_calls := 0 |}.

Definition decode_batch (batch_images : list Image)
    (batch_boxes : list (list Box)) : result DecodeState :=
  let model_inputs := preprocess processor batch_images batch_boxes in
  decode_while (Z.to_nat (ORDER_MAX_BOXES settings))
               (pixel_values model_inputs) (input_boxes_counts model_inputs)
               (decode_init model_inputs (length batch_images)).

(** *** One batch (lines 47-141) and the whole function *)

Definition run_batch (images : list Image) (bboxes_all : list (list Box))
    (labels : option (list (list string))) (batch_size : nat) (i : nat)
    (output_order : list OrderResult) : result (list OrderResult) :=
  let batch_boxes := slice bboxes_all i batch_size in
  let batch_images := slice images i batch_size in
  let orig_sizes := size <$> batch_images in
  st ← decode_batch batch_images batch_boxes;
  assemble_batch bboxes_all labels orig_sizes i (predictions st) output_order.

Definition batch_ordering (images : list Image) (bboxes_all : list (list Box))
    (labels : option (list (list string))) : result (list OrderResult) :=
  _ ← py_assert (bool_decide (length images = length bboxes_all));
  let batch_size := get_batch_size settings in
  _ ← check_labels images bboxes_all labels;
  let images := convert_RGB <$> images in
  starts ← py_range_step (length images) batch_size;
  for_each (run_batch images bboxes_all labels (Z.to_nat batch_size))
           starts [].

End pipeline.

(** ** Vocabulary of the statements *)

(** The order a stable sort produces: by key, and among equal keys by
    the place [tie] the element had in the input. *)
Definition key_then_tie {A : Type} (key : A → Z) (tie : A → nat) (x y : A) : Prop :=
  key x < key y ∨ (key x = key y ∧ (tie x < tie y)%nat).

(** The 0-based rank of the value [v] at position [i] of [arr] under
    ascending order with ties broken by position: the values below [v],
    and the values equal to [v] in front of position [i]. *)
Definition stable_rank (arr : list Z) (i : nat) (v : Z) : nat :=
  (length (filter (λ w, (w < v)%Z) arr) +
   length (filter (λ w, w = v) (take i arr)))%nat.

(** [0, 1, ..., n-1] *)
Definition iota (n : nat) : list Z := Z.of_nat <$> seq 0 n.

(** The assignments of lines 27-28, for any list of (position, value)
    pairs whose positions are distinct: the pair at place [k] writes [k]
    at its position. *)
Definition scatter (rank : list Z) (pairs : list (nat * Z)) : list Z :=
  foldl (λ rank '(rank_value, (original_index, value)),
           <[original_index := Z.of_nat rank_value]> rank)
        rank (enumerate pairs).

(** The three groups of line 117-119: 0 for a header, 1 for the body,
    2 for a footer. *)
Definition group_of (label : string) : Z :=
  if decide (label = "Page-header") then 0
  else if decide (label = "Page-footer") then 2
  else 1.

(** The stages of [reorder]. *)
Definition combined_rows (row_bboxes : list Box) (row_label_list : list string)
    (ranks : list Z) : list Row :=
  imap (λ i '(bbox, label, rank),
          {| row_index := i; row_bbox := bbox; row_label := label; row_rank := rank |})
       (zip3 row_bboxes row_label_list ranks).

Definition headers_body_footers (combined : list Row) : list Row :=
  filter (λ row, row_label row = "Page-header") combined ++
  filter (λ row, row_label row ∉ ["Page-header"; "Page-footer"]) combined ++
  filter (λ row, row_label row = "Page-footer") combined.

Definition reading_order (row_bboxes : list Box) (row_label_list : list string)
    (ranks : list Z) : list Row :=
  headers_body_footers (sorted row_rank (combined_rows row_bboxes row_label_list ranks)).

Definition reranked (rows : list Row) : list Row :=
  sorted (λ row, Z.of_nat (row_index row))
         (imap (λ rank row, set_rank (Z.of_nat rank) row) rows).

(** The order of the rows in the new reading order: by group, inside a
    group by raw rank, and among equal raw ranks by array index. *)
Definition reads_before (x y : Row) : Prop :=
  group_of (row_label x) < group_of (row_label y) ∨
  (group_of (row_label x) = group_of (row_label y) ∧
   key_then_tie row_rank row_index x y).

(** The state after [k] iterations of the decoding loop none of which
    left through [break]. *)
Fixpoint unbroken {Pixels Counts Cache Encoded : Type}
    (processor : @Processor Pixels Counts)
    (model : @Model Pixels Counts Cache Encoded)
    (k : nat) (pixels : Pixels) (counts : Counts) (st : DecodeState)
    : option DecodeState :=
  match k with
  | O => Some st
  | S k' =>
      match decode_step processor model pixels counts st with
      | Ok (st', false) => unbroken processor model k' pixels counts st'
      | _ => None
      end
  end.

(** The decoding of a batch acts on each sample by itself: it completes
    exactly when [decode_one] completes on every sample, with those
    predictions. *)
Definition decodes_per_sample {Pixels Counts Cache Encoded : Type}
    (settings : Settings) (processor : @Processor Pixels Counts)
    (model : @Model Pixels Counts Cache Encoded)
    (decode_one : Image → list Box → result (list Z)) : Prop :=
  ∀ (batch_images : list Image) (batch_boxes : list (list Box))
    (batch_predictions : list (list Z)),
    length batch_images = length batch_boxes →
    (∃ st, decode_batch settings processor model batch_images batch_boxes = Ok st ∧
           predictions st = batch_predictions) ↔
    Forall2 (λ sample row_pred, decode_one sample.1 sample.2 = Ok row_pred)
            (zip batch_images batch_boxes) batch_predictions.

(** What a caller holds after the call: the returned list, or nothing
    when the call raised. *)
Definition returned {A : Type} (outcome : result (list A)) : list A :=
  match outcome with
  | Ok results => results
  | Err _ => []
  end.

(** ** Collaborators for the examples

    A preprocessor that passes nothing on and a model that answers every
    call with the same rows of logits. *)
Definition example_processor (pad height : Z) : @Processor unit unit :=
  {| preprocess := λ _ _,
       {| pixel_values := tt; input_boxes := []; input_boxes_mask := [];
          input_boxes_counts := tt |};
     token_pad_id := pad;
     box_size_height := height |}.

Definition example_model (rows : list (list Q)) : @Model unit unit unit unit :=
  λ _ _ _ _ _ _,
    {| logits := rows; out_past_key_values := tt;
       encoder_last_hidden_state := tt |}.

Definition example_settings (batch_size max_boxes : Z) : Settings :=
  {| ORDER_BATCH_SIZE := Some batch_size;
     TORCH_DEVICE_MODEL := "cpu";
     ORDER_MAX_BOXES := max_boxes |}.

Definition example_image (w h : Z) : Image := {| mode := "L"; size := (w, h) |}.

(** The result of sample [k] taken by itself: its own decoding, then
    validation and assembly against the submitted lists. *)
Definition sample_result (decode_one : Image → list Box → result (list Z))
    (images : list Image) (bboxes_all : list (list Box))
    (labels : option (list (list string))) (k : nat) (r : OrderResult) : Prop :=
  ∃ image boxes row_pred,
    images !! k = Some image ∧ bboxes_all !! k = Some boxes ∧
    decode_one image boxes = Ok row_pred ∧
    order_row bboxes_all labels (size <$> images) 0 k row_pred = Ok r.

(** The rows of logits the model returns at the first step of a batch. *)
Definition first_logits {Pixels Counts Cache Encoded : Type}
    (processor : @Processor Pixels Counts)
    (model : @Model Pixels Counts Cache Encoded)
    (batch_images : list Image) (batch_boxes : list (list Box))
    : list (list Q) :=
  let model_inputs := preprocess processor batch_images batch_boxes in
  logits (model (pixel_values model_inputs)
                (InputBoxes (input_boxes model_inputs))
                (InputMask (input_boxes_mask model_inputs))
                (input_boxes_counts model_inputs) None None).

(** * The layout model: [surya/model/layout/encoderdecoder.py]

    [LayoutEncoderDecoderModel.forward] splits its keyword arguments
    between the encoder and the decoder, runs the encoder unless its
    outputs are handed in, and runs the decoder on them.  The encoder,
    the decoder and the helpers of transformers are external: they are
    fields of the model.  [__init__] sets no [enc_to_dec_proj]: the
    attribute is there only when the object was given one.  Tensors and
    keyword values are opaque. *)

Module encoderdecoder.

(** The exceptions of this file, and a statement that may raise one. *)
Inductive exception : Set :=
  | ValueError
  | TypeError
  | AttributeError.

Inductive outcome (A : Type) : Type :=
  | Return (a : A)
  | Raise (e : exception).
Arguments Return {A} a.
Arguments Raise {A} e.

#[global] Instance outcome_ret : MRet outcome := λ A a, Return a.
#[global] Instance outcome_bind : MBind outcome := λ A B f m,
  match m with
  | Return a => f a
  | Raise e => Raise e
  end.

(** A dict with string keys, in insertion order. *)
Definition Kwargs (V : Type) : Type := list (string * V).

(** [d[k] = v]: an existing key keeps its place. *)
Fixpoint item_assign {V : Type} (d : Kwargs V) (k : string) (v : V) : Kwargs V :=
  match d with
  | [] => [(k, v)]
  | (k', v') :: d' =>
      if decide (k' = k) then (k', v) :: d' else (k', v') :: item_assign d' k v
  end.

(** [s.startswith(prefix)] *)
Definition startswith (s prefix : string) : bool := String.prefix prefix s.

(** [s[n:]] *)
Fixpoint drop_chars (n : nat) (s : string) : string :=
  match n, s with
  | O, _ => s
  | S n', String _ s' => drop_chars n' s'
  | S _, EmptyString => EmptyString
  end.

(** [{key(argument): value for argument, value in items if cond(argument)}] *)
Definition dict_comprehension {V : Type} (key : string → string)
    (cond : string → bool) (items : Kwargs V) : Kwargs V :=
  foldl (λ d '(argument, value),
           if cond argument then item_assign d (key argument) value else d)
        [] items.

(** Lines 84-88. *)
Definition kwargs_encoder {V : Type} (kwargs : Kwargs V) : Kwargs V :=
  dict_comprehension (λ argument, argument)
                     (λ argument, negb (startswith argument "decoder_")) kwargs.

Definition kwargs_decoder {V : Type} (kwargs : Kwargs V) : Kwargs V :=
  dict_comprehension (λ argument, drop_chars (String.length "decoder_") argument)
                     (λ argument, startswith argument "decoder_") kwargs.

(** A call [f(name=..., **kwargs)]: a name that is written out and also
    a key of [kwargs] raises [TypeError]. *)
Definition call_keywords {V : Type} (written : list string) (kwargs : Kwargs V)
    : outcome unit :=
  if bool_decide (Forall (λ item, item.1 ∉ written) kwargs) then Return tt
  else Raise TypeError.

(** [self.name] for an attribute that [__init__] does not set: it
    raises unless the object was given one. *)
Definition getattr {A : Type} (attribute : option A) : outcome A :=
  match attribute with
  | Some a => Return a
  | None => Raise AttributeError
  end.

Section forward.
Context {Tensor Value EncoderOutput : Type}.

Record DecoderCall : Type := {
  input_ids : option Value;
  cache_position : option Value;
  attention_mask : option Value;
  encoder_hidden_states : Tensor;
  encoder_attention_mask : option Value;
  use_cache : option Value;
  more_keywords : Kwargs Value;
}.

Record DecoderOutput : Type := {
  decoder_bbox_logits : Tensor;
  decoder_class_logits : Tensor;
  hidden_states : Tensor;
}.

Record SuryaLayoutModelOutput : Type := {
  bbox_logits : Tensor;
  class_logits : Tensor;
  decoder_hidden_states : Tensor;
  encoder_last_hidden_state : Tensor;
}.

(** What a caller may hand in as [encoder_outputs]. *)
Inductive EncoderOutputs : Type :=
  | AsTuple (items : list Tensor)
  | AsOutput (output : EncoderOutput).

Record LayoutEncoderDecoderModel : Type := {
  encoder : Tensor → Kwargs Value → EncoderOutput;
  decoder : DecoderCall → DecoderOutput;
  enc_to_dec_proj : option (Tensor → Tensor);
  encoder_hidden_size : Z;
  decoder_hidden_size : Z;
  cross_attention_hidden_size : option Z;
  (* transformers: [BaseModelOutput] built from the items of a tuple,
     [output[0]] and [output.last_hidden_state] *)
  BaseModelOutput : list Tensor → EncoderOutput;
  first_item : EncoderOutput → Tensor;
  last_hidden_state : EncoderOutput → Tensor;
}.

Definition forward (self : LayoutEncoderDecoderModel)
    (pixel_values : option Tensor)
    (decoder_input_ids decoder_cache_position decoder_attention_mask
       : option Value)
    (encoder_outputs : option EncoderOutputs) (use_cache : option Value)
    (kwargs : Kwargs Value) : outcome SuryaLayoutModelOutput :=
  let kwargs_encoder := kwargs_encoder kwargs in
  let kwargs_decoder := kwargs_decoder kwargs in
  encoder_outputs ←
    match encoder_outputs with
    | None =>
        match pixel_values with
        | None => Raise ValueError
        | Some pixel_values =>
            _ ← call_keywords ["pixel_values"] kwargs_encoder;
            Return (encoder self pixel_values kwargs_encoder)
        end
    | Some (AsTuple items) => Return (BaseModelOutput self items)
    | Some (AsOutput output) => Return output
    end;
  let encoder_hidden_states := first_item self encoder_outputs in
  encoder_hidden_states ←
    (if bool_decide (encoder_hidden_size self ≠ decoder_hidden_size self)
        && bool_decide (cross_attention_hidden_size self = None)
     then
       enc_to_dec_proj ← getattr (enc_to_dec_proj self);
       Return (enc_to_dec_proj encoder_hidden_states)
     else Return encoder_hidden_states);
  let encoder_attention_mask := None in
  _ ← call_keywords ["input_ids"; "cache_position"; "attention_mask";
                     "encoder_hidden_states"; "encoder_attention_mask";
                     "use_cache"] kwargs_decoder;
  let decoder_outputs :=
    decoder self
      {| input_ids := decoder_input_ids;
         cache_position := decoder_cache_position;
         attention_mask := decoder_attention_mask;
         encoder_hidden_states := encoder_hidden_states;
         encoder_attention_mask := encoder_attention_mask;
         use_cache := use_cache;
         more_keywords := kwargs_decoder |} in
  Return {| bbox_logits := decoder_bbox_logits decoder_outputs;
            class_logits := decoder_class_logits decoder_outputs;
            decoder_hidden_states := hidden_states decoder_outputs;
            encoder_last_hidden_state :=
              last_hidden_state self encoder_outputs |}.

(** The same model with another encoder. *)
Definition with_encoder (self : LayoutEncoderDecoderModel)
    (encoder' : Tensor → Kwargs Value → EncoderOutput)
    : LayoutEncoderDecoderModel :=
  {| encoder := encoder';
     decoder := decoder self;
     enc_to_dec_proj := enc_to_dec_proj self;
     encoder_hidden_size := encoder_hidden_size self;
     decoder_hidden_size := decoder_hidden_size self;
     cross_attention_hidden_size := cross_attention_hidden_size self;
     BaseModelOutput := BaseModelOutput self;
     first_item := first_item self;
     last_hidden_state := last_hidden_state self |}.
End forward.

(** The names [forward] binds itself: they never arrive in [kwargs]. *)
Definition forward_parameters : list string :=
  ["pixel_values"; "decoder_input_ids"; "decoder_cache_position";
   "decoder_attention_mask"; "encoder_outputs"; "use_cache"].

(** The keyword arguments a call can leave in [kwargs]: distinct names,
    none of them a parameter of [forward]. *)
Definition received {V : Type} (kwargs : Kwargs V) : Prop :=
  NoDup kwargs.*1 ∧ Forall (λ argument, argument ∉ forward_parameters) kwargs.*1.

End encoderdecoder.

(** The cases of an outcome: which exception, under which condition. *)
Ltac forward_case :=
  let H := fresh in
  split; intros H;
  [ first [discriminate H | injection H as <-; intuition congruence]
  | intuition congruence ].

(** ** Examples *)

Example rank_elements_312 : rank_elements [3; 1; 2] = [2; 0; 1].
Proof. reflexivity. Qed.

Example rank_elements_555 : rank_elements [5; 5; 5] = [0; 1; 2].
Proof. reflexivity. Qed.

Example reorder_header_footer :
  reorder [[1%Q]; [2%Q]; [3%Q]; [4%Q]]
          ["Page-footer"; "Text"; "Page-header"; "Text"] [0; 2; 3; 1]
  = ([[1%Q]; [2%Q]; [3%Q]; [4%Q]], [3; 2; 0; 1]).
Proof. reflexivity. Qed.

(** * Properties *)

(** ** The result monad *)

Lemma bind_Ok {A B : Type} (m : result A) (f : A → result B) (b : B) :
  m ≫= f = Ok b ↔ ∃ a, m = Ok a ∧ f a = Ok b.
Proof.
  destruct m as [a|e]; simpl; split.
  - intros H. by exists a.
  - by intros (a' & [= ->] & H).
  - done.
  - by intros (a' & [=] & _).
Qed.

Lemma bind_Ok_l {A B : Type} (a : A) (f : A → result B) : Ok a ≫= f = f a.
Proof. done. Qed.

Lemma for_each_cons {A S : Type} (body : A → S → result S) (x : A) (xs : list A)
    (acc : S) :
  for_each body (x :: xs) acc = body x acc ≫= for_each body xs.
Proof. done. Qed.

Lemma for_each_app {A S : Type} (body : A → S → result S) (xs ys : list A) (acc : S) :
  for_each body (xs ++ ys) acc = for_each body xs acc ≫= for_each body ys.
Proof.
  revert acc. induction xs as [|x xs IH]; intros acc; simpl; [done|].
  destruct (body x acc) as [acc'|e]; simpl; [apply IH|done].
Qed.

Lemma for_each_ext {A S : Type} (f g : A → S → result S) (xs : list A) (acc : S) :
  (∀ x s, f x s = g x s) → for_each f xs acc = for_each g xs acc.
Proof.
  intros Hfg. revert acc. induction xs as [|x xs IH]; intros acc; simpl; [done|].
  rewrite Hfg. destruct (g x acc); simpl; [apply IH|done].
Qed.

(** ** [sorted] is a stable sort *)

Section sorted_facts.
Context {A : Type} (key : A → Z).

Lemma insert_by_perm (x : A) (l : list A) : insert_by key x l ≡ₚ x :: l.
Proof.
  induction l as [|y l IH]; simpl; [done|].
  destruct (key y <? key x); [|done].
  rewrite IH. apply Permutation_swap.
Qed.

Lemma sorted_perm (l : list A) : sorted key l ≡ₚ l.
Proof.
  induction l as [|x l IH]; simpl; [done|].
  by rewrite insert_by_perm, IH.
Qed.

Lemma length_sorted (l : list A) : length (sorted key l) = length l.
Proof. by rewrite sorted_perm. Qed.

Lemma elem_of_sorted (x : A) (l : list A) : x ∈ sorted key l ↔ x ∈ l.
Proof. by rewrite sorted_perm. Qed.

(** Elements with equal keys keep the order they had: when [tie]
    grows along the input, the output is ordered by key and then by
    [tie]. *)
Context (tie : A → nat).

Lemma key_then_tie_irrefl (x : A) : ¬ key_then_tie key tie x x.
Proof. unfold key_then_tie. lia. Qed.

Lemma key_then_tie_asym (x y : A) : key_then_tie key tie x y → ¬ key_then_tie key tie y x.
Proof. unfold key_then_tie. lia. Qed.

Lemma key_then_tie_trans (x y z : A) :
  key_then_tie key tie x y → key_then_tie key tie y z → key_then_tie key tie x z.
Proof. unfold key_then_tie. lia. Qed.

Lemma insert_by_sorted (x : A) (l : list A) :
  Forall (λ y, (tie x < tie y)%nat) l →
  StronglySorted (key_then_tie key tie) l →
  StronglySorted (key_then_tie key tie) (insert_by key x l).
Proof.
  induction l as [|y l IH]; simpl; intros Htie Hs.
  - repeat constructor.
  - apply Forall_cons in Htie as [Hy Htie].
    apply StronglySorted_cons in Hs as [Hyl Hs].
    destruct (Z.ltb_spec (key y) (key x)) as [Hlt|Hge].
    + apply StronglySorted_cons. split; [|by apply IH].
      rewrite insert_by_perm. constructor; [by left|done].
    + assert (key_then_tie key tie x y) as Hxy by (unfold key_then_tie; lia).
      apply StronglySorted_cons. split.
      * constructor; [done|].
        eapply Forall_impl; [exact Hyl|].
        intros z Hz. by eapply key_then_tie_trans.
      * by apply StronglySorted_cons.
Qed.

Lemma sorted_stable (l : list A) :
  StronglySorted (λ x y, (tie x < tie y)%nat) l →
  StronglySorted (key_then_tie key tie) (sorted key l).
Proof.
  induction l as [|x l IH]; simpl; intros Hl.
  - constructor.
  - apply StronglySorted_cons in Hl as [Hx Hl].
    apply insert_by_sorted; [|by apply IH].
    rewrite sorted_perm. done.
Qed.
End sorted_facts.

(** In a list that is strictly ordered, an element sits at the position
    that counts the elements below it. *)
Lemma position_in_strictly_sorted {A : Type} (R : relation A)
    `{!∀ x y, Decision (R x y)} (l : list A) (k : nat) (x : A) :
  (∀ y, ¬ R y y) → (∀ y z, R y z → ¬ R z y) →
  StronglySorted R l → l !! k = Some x →
  length (filter (λ y, R y x) l) = k.
Proof.
  intros Hirr Hasym Hs Hk.
  pose proof (lookup_lt_Some _ _ _ Hk) as Hlt.
  rewrite <- (take_drop_middle l k x Hk) in Hs |- *.
  rewrite filter_app, length_app.
  assert (filter (λ y, R y x) (take k l) = take k l) as ->.
  { clear Hlt Hk. induction (take k l) as [|y t IH]; [done|].
    simpl in Hs. apply StronglySorted_cons in Hs as [Hy Hs].
    rewrite filter_cons_True.
    - f_equal. by apply IH.
    - rewrite Forall_app, Forall_cons in Hy. tauto. }
  assert (filter (λ y, R y x) (x :: drop (S k) l) = []) as ->.
  { apply StronglySorted_app_1_r, StronglySorted_cons in Hs as [Hx _].
    rewrite filter_cons_False by apply Hirr.
    induction (drop (S k) l) as [|y t IH]; [done|].
    apply Forall_cons in Hx as [Hy Hx].
    rewrite filter_cons_False by (by apply Hasym). by apply IH. }
  rewrite length_take. simpl. lia.
Qed.

Lemma strictly_sorted_lookup_lt {A : Type} (R : relation A) (l : list A)
    (p q : nat) (x y : A) :
  StronglySorted R l → l !! p = Some x → l !! q = Some y → (p < q)%nat → R x y.
Proof.
  intros Hs Hp Hq Hpq.
  rewrite <- (take_drop_middle l p x Hp) in Hs.
  apply StronglySorted_app_1_r, StronglySorted_cons in Hs as [Hx _].
  rewrite Forall_forall in Hx. apply Hx.
  apply list_elem_of_lookup. exists (q - S p)%nat.
  rewrite lookup_drop. rewrite <- Hq. f_equal. lia.
Qed.

(** ** [enumerate] *)

Lemma enumerate_lookup {A : Type} (l : list A) (i : nat) :
  enumerate l !! i = (λ x, (i, x)) <$> l !! i.
Proof. unfold enumerate. apply list_lookup_imap. Qed.

Lemma elem_of_enumerate {A : Type} (l : list A) (i : nat) (x : A) :
  (i, x) ∈ enumerate l ↔ l !! i = Some x.
Proof.
  rewrite list_elem_of_lookup. split.
  - intros (k & Hk). rewrite enumerate_lookup in Hk.
    destruct (l !! k) as [y|] eqn:Hy; simplify_eq/=. done.
  - intros Hi. exists i. rewrite enumerate_lookup, Hi. done.
Qed.

Lemma enumerate_fst {A : Type} (l : list A) : (enumerate l).*1 = seq 0 (length l).
Proof.
  apply list_eq. intros i. rewrite list_lookup_fmap, enumerate_lookup.
  destruct (l !! i) as [x|] eqn:Hx; simpl.
  - symmetry. apply lookup_seq. split; [done|]. by eapply lookup_lt_Some.
  - symmetry. apply lookup_seq_ge. by apply lookup_ge_None.
Qed.

Lemma enumerate_snd {A : Type} (l : list A) : (enumerate l).*2 = l.
Proof.
  apply list_eq. intros i. rewrite list_lookup_fmap, enumerate_lookup.
  by destruct (l !! i).
Qed.

Lemma length_enumerate {A : Type} (l : list A) : length (enumerate l) = length l.
Proof. unfold enumerate. apply length_imap. Qed.

Lemma enumerate_snoc {A : Type} (l : list A) (x : A) :
  enumerate (l ++ [x]) = enumerate l ++ [(length l, x)].
Proof.
  unfold enumerate. rewrite imap_app. simpl. do 3 f_equal. lia.
Qed.

Lemma enumerate_increasing {A : Type} (l : list A) :
  StronglySorted (λ x y : nat * A, (x.1 < y.1)%nat) (enumerate l).
Proof.
  induction l as [|x l IH] using rev_ind; [constructor|].
  rewrite enumerate_snoc. apply StronglySorted_app. split_and!.
  - intros [i a] [j b] Hi Hj. apply list_elem_of_singleton in Hj as [= -> ->].
    apply elem_of_enumerate, lookup_lt_Some in Hi. done.
  - done.
  - repeat constructor.
Qed.

(** ** [rank_elements] *)

Lemma length_scatter (rank : list Z) (pairs : list (nat * Z)) :
  length (scatter rank pairs) = length rank.
Proof.
  unfold scatter. induction pairs as [|[i v] pairs IH] using rev_ind; [done|].
  rewrite enumerate_snoc, foldl_app. simpl. by rewrite length_insert.
Qed.

Lemma scatter_lookup (rank : list Z) (pairs : list (nat * Z)) (k i : nat) (v : Z) :
  NoDup pairs.*1 → (i < length rank)%nat → pairs !! k = Some (i, v) →
  scatter rank pairs !! i = Some (Z.of_nat k).
Proof.
  unfold scatter. revert k.
  induction pairs as [|[i' v'] pairs IH] using rev_ind; intros k Hnd Hi Hk; [done|].
  rewrite enumerate_snoc, foldl_app. simpl.
  rewrite fmap_app in Hnd. apply NoDup_app in Hnd as (Hnd & Hfresh & _).
  destruct (decide (k = length pairs)) as [->|Hne].
  - rewrite lookup_app_r, Nat.sub_diag in Hk by done. simplify_eq/=.
    apply list_lookup_insert_eq.
    pose proof (length_scatter rank pairs) as Hlen. unfold scatter in Hlen.
    by rewrite Hlen.
  - assert (k < length pairs)%nat as Hlt.
    { apply lookup_lt_Some in Hk. rewrite length_app in Hk. simpl in Hk. lia. }
    rewrite lookup_app_l in Hk by done.
    rewrite list_lookup_insert_ne; [by apply IH|].
    intros ->. apply (Hfresh i).
    + apply list_elem_of_fmap. exists (i, v). split; [done|].
      by eapply list_elem_of_lookup_2.
    + simpl. apply list_elem_of_singleton. done.
Qed.

Lemma rank_elements_scatter (arr : list Z) :
  rank_elements arr =
  scatter (replicate (length arr) 0) (sorted snd (enumerate arr)).
Proof. done. Qed.

Lemma length_rank_elements (arr : list Z) :
  length (rank_elements arr) = length arr.
Proof. by rewrite rank_elements_scatter, length_scatter, length_replicate. Qed.

(** The place a position holds in the sorted enumeration. *)
Lemma sorted_enumerate_place (arr : list Z) (i : nat) (v : Z) :
  arr !! i = Some v →
  ∃ k, sorted snd (enumerate arr) !! k = Some (i, v) ∧
       rank_elements arr !! i = Some (Z.of_nat k).
Proof.
  intros Hi.
  assert ((i, v) ∈ sorted snd (enumerate arr)) as Hin.
  { apply elem_of_sorted. by apply elem_of_enumerate. }
  apply list_elem_of_lookup in Hin as [k Hk]. exists k. split; [done|].
  rewrite rank_elements_scatter. eapply scatter_lookup; [| |done].
  - rewrite (sorted_perm snd (enumerate arr)), enumerate_fst. apply NoDup_seq.
  - rewrite length_replicate. by eapply lookup_lt_Some.
Qed.

Lemma count_below_enumerate (arr : list Z) (n i : nat) (v : Z) :
  length (filter (λ p : nat * Z, key_then_tie snd fst p (i, v))
                 (imap (λ j x, ((n + j)%nat, x)) arr)) =
  (length (filter (λ w, (w < v)%Z) arr) +
   length (filter (λ w, w = v) (take (i - n) arr)))%nat.
Proof.
  revert n. induction arr as [|a arr IH]; intros n; [by rewrite take_nil|].
  rewrite imap_cons.
  assert (imap ((λ j x, ((n + j)%nat, x)) ∘ S) arr
          = imap (λ j x, ((S n + j)%nat, x)) arr) as ->.
  { apply imap_ext. intros j x _. simpl. f_equal. lia. }
  specialize (IH (S n)).
  assert (take (i - n) (a :: arr) =
          if decide (i ≤ n)%nat then [] else a :: take (i - S n) arr) as ->.
  { case_decide.
    - by replace (i - n)%nat with 0%nat by lia.
    - by replace (i - n)%nat with (S (i - S n)) by lia. }
  assert (i ≤ n → take (i - S n) arr = [])%nat as Hnil.
  { intros ?. by replace (i - S n)%nat with 0%nat by lia. }
  rewrite (filter_cons _ (_, a)), (filter_cons _ a arr).
  unfold key_then_tie at 1. simpl. simpl in IH.
  destruct (decide (i ≤ n)%nat) as [Hle|Hgt].
  - rewrite (Hnil Hle) in IH. rewrite filter_nil in IH |- *.
    repeat case_decide; simpl; rewrite IH; simpl; lia.
  - rewrite filter_cons.
    repeat case_decide; simpl; rewrite IH; simpl; lia.
Qed.

Lemma rank_elements_lookup (arr : list Z) (i : nat) (v : Z) :
  arr !! i = Some v →
  rank_elements arr !! i = Some (Z.of_nat (stable_rank arr i v)).
Proof.
  intros Hi. destruct (sorted_enumerate_place arr i v Hi) as (k & Hk & ->).
  do 2 f_equal.
  pose proof (sorted_stable snd fst (enumerate arr) (enumerate_increasing arr)) as Hs.
  rewrite <- (position_in_strictly_sorted _ _ k (i, v)
                (key_then_tie_irrefl snd fst) (key_then_tie_asym snd fst) Hs Hk).
  rewrite (sorted_perm snd (enumerate arr)).
  unfold stable_rank, enumerate.
  pose proof (count_below_enumerate arr 0 i v) as Hcount.
  rewrite Nat.sub_0_r in Hcount. by rewrite <- Hcount.
Qed.

(** ** Lists that hold, at each position, the place of that position in
    a permutation *)

Lemma lookup_iota (n i : nat) (x : Z) :
  iota n !! i = Some x ↔ x = Z.of_nat i ∧ (i < n)%nat.
Proof.
  unfold iota. rewrite list_lookup_fmap_Some. split.
  - intros (k & -> & Hk). apply lookup_seq in Hk as [-> ?]. done.
  - intros [-> Hi]. exists i. split; [done|]. by apply lookup_seq.
Qed.

Lemma elem_of_iota (n : nat) (x : Z) : x ∈ iota n ↔ 0 ≤ x < Z.of_nat n.
Proof.
  rewrite list_elem_of_lookup. setoid_rewrite lookup_iota. split.
  - intros (i & -> & Hi). lia.
  - intros Hx. exists (Z.to_nat x). lia.
Qed.

Lemma NoDup_iota (n : nat) : NoDup (iota n).
Proof. unfold iota. apply NoDup_fmap_2; [apply _|apply NoDup_seq]. Qed.

Lemma length_iota (n : nat) : length (iota n) = n.
Proof. unfold iota. by rewrite length_fmap, length_seq. Qed.

Lemma places_permutation (idxs : list nat) (r : list Z) :
  idxs ≡ₚ seq 0 (length r) →
  (∀ k i, idxs !! k = Some i → r !! i = Some (Z.of_nat k)) →
  r ≡ₚ iota (length r).
Proof.
  intros Hperm Hplace.
  assert (length idxs = length r) as Hlen by (by rewrite Hperm, length_seq).
  assert (∀ i x, r !! i = Some x →
            ∃ k, idxs !! k = Some i ∧ x = Z.of_nat k) as Hback.
  { intros i x Hi.
    assert (i ∈ idxs) as Hin.
    { rewrite Hperm. apply elem_of_seq. apply lookup_lt_Some in Hi. lia. }
    apply list_elem_of_lookup in Hin as [k Hk]. exists k. split; [done|].
    rewrite (Hplace k i Hk) in Hi. congruence. }
  apply NoDup_Permutation.
  - apply NoDup_alt. intros i j x Hi Hj.
    destruct (Hback i x Hi) as (k & Hk & ->).
    destruct (Hback j _ Hj) as (k' & Hk' & Heq).
    assert (k = k') as <- by lia. congruence.
  - apply NoDup_iota.
  - intros x. rewrite elem_of_iota. split.
    + intros Hx. apply list_elem_of_lookup in Hx as [i Hi].
      destruct (Hback i x Hi) as (k & Hk & ->).
      apply lookup_lt_Some in Hk. lia.
    + intros Hx.
      destruct (lookup_lt_is_Some_2 idxs (Z.to_nat x)) as [i Hi]; [lia|].
      apply list_elem_of_lookup. exists i.
      rewrite (Hplace _ _ Hi). f_equal. lia.
Qed.

Lemma rank_elements_permutation (arr : list Z) :
  rank_elements arr ≡ₚ iota (length arr).
Proof.
  rewrite <- (length_rank_elements arr).
  apply (places_permutation (sorted snd (enumerate arr)).*1).
  - rewrite (sorted_perm snd (enumerate arr)), enumerate_fst.
    by rewrite length_rank_elements.
  - intros k i Hk. apply list_lookup_fmap_Some in Hk as ([i' v] & -> & Hk).
    simpl.
    assert (arr !! i' = Some v) as Hi.
    { apply elem_of_enumerate, (elem_of_sorted snd).
      by eapply list_elem_of_lookup_2. }
    destruct (sorted_enumerate_place arr i' v Hi) as (k' & Hk' & ->).
    do 2 f_equal.
    eapply NoDup_lookup; [|exact Hk'|exact Hk].
    eapply NoDup_fmap_1 with (f := fst).
    rewrite (sorted_perm snd (enumerate arr)), enumerate_fst. apply NoDup_seq.
Qed.

(** On a permutation of [0, n) the rank of a value is the value. *)
Lemma count_below_iota (n : nat) (v : Z) :
  0 ≤ v < Z.of_nat n →
  length (filter (λ w, w < v) (iota n)) = Z.to_nat v.
Proof.
  intros Hv. rewrite <- (length_iota (Z.to_nat v)).
  apply Permutation_length, NoDup_Permutation.
  - apply NoDup_filter, NoDup_iota.
  - apply NoDup_iota.
  - intros w. rewrite list_elem_of_filter, !elem_of_iota. lia.
Qed.

Lemma stable_rank_permutation (arr : list Z) (i : nat) (v : Z) :
  arr ≡ₚ iota (length arr) → arr !! i = Some v →
  Z.of_nat (stable_rank arr i v) = v.
Proof.
  intros Hperm Hi. unfold stable_rank.
  assert (0 ≤ v < Z.of_nat (length arr)) as Hv.
  { apply elem_of_iota. rewrite <- Hperm. by eapply list_elem_of_lookup_2. }
  assert (filter (λ w, w = v) (take i arr) = []) as ->.
  { destruct (filter (λ w, w = v) (take i arr)) as [|w t] eqn:Hf; [done|].
    assert (w ∈ filter (λ w, w = v) (take i arr)) as Hw by (rewrite Hf; left).
    apply list_elem_of_filter in Hw as [-> Hw].
    apply elem_of_take in Hw as (k & Hk & Hlt).
    assert (NoDup arr) as Hnd by (rewrite Hperm; apply NoDup_iota).
    pose proof (NoDup_lookup _ _ _ _ Hnd Hk Hi). lia. }
  rewrite Hperm at 1. rewrite count_below_iota by done. simpl. lia.
Qed.

Lemma rank_elements_of_permutation (arr : list Z) :
  arr ≡ₚ iota (length arr) → rank_elements arr = arr.
Proof.
  intros Hperm. apply list_eq. intros i.
  destruct (arr !! i) as [v|] eqn:Hi.
  - rewrite (rank_elements_lookup arr i v Hi).
    by rewrite (stable_rank_permutation arr i v Hperm Hi).
  - apply lookup_ge_None. rewrite length_rank_elements.
    by apply lookup_ge_None.
Qed.

(** ** More on [sorted] *)

Lemma insert_by_le_sorted {A : Type} (key : A → Z) (x : A) (l : list A) :
  StronglySorted (λ y z, key y ≤ key z) l →
  StronglySorted (λ y z, key y ≤ key z) (insert_by key x l).
Proof.
  induction l as [|y l IH]; simpl; intros Hs; [repeat constructor|].
  apply StronglySorted_cons in Hs as [Hy Hs].
  destruct (Z.ltb_spec (key y) (key x)) as [Hlt|Hge].
  - apply StronglySorted_cons. split; [|by apply IH].
    rewrite insert_by_perm. constructor; [lia|done].
  - apply StronglySorted_cons. split; [|by apply StronglySorted_cons].
    constructor; [done|]. eapply Forall_impl; [exact Hy|]. simpl. lia.
Qed.

Lemma sorted_le_sorted {A : Type} (key : A → Z) (l : list A) :
  StronglySorted (λ y z, key y ≤ key z) (sorted key l).
Proof.
  induction l as [|x l IH]; simpl; [constructor|].
  by apply insert_by_le_sorted.
Qed.

Lemma StronglySorted_filter {A : Type} (R : relation A) (P : A → Prop)
    `{!∀ x, Decision (P x)} (l : list A) :
  StronglySorted R l → StronglySorted R (filter P l).
Proof.
  induction l as [|x l IH]; [done|]. intros [Hx Hs]%StronglySorted_cons.
  rewrite filter_cons. case_decide; [|by apply IH].
  apply StronglySorted_cons. split; [|by apply IH].
  rewrite Forall_forall in Hx |- *.
  intros y [_ Hy]%list_elem_of_filter. by apply Hx.
Qed.

Lemma StronglySorted_weaken {A : Type} (R R' : relation A) (l : list A) :
  (∀ x y, x ∈ l → y ∈ l → R x y → R' x y) →
  StronglySorted R l → StronglySorted R' l.
Proof.
  induction l as [|x l IH]; intros Himp; [constructor|].
  intros [Hx Hs]%StronglySorted_cons. apply StronglySorted_cons. split.
  - rewrite Forall_forall in Hx |- *. intros y Hy.
    apply Himp; [left|by right|by apply Hx].
  - apply IH; [|done]. intros y z Hy Hz. apply Himp; by right.
Qed.

Lemma StronglySorted_seq (s n : nat) : StronglySorted le (seq s n).
Proof.
  revert s. induction n as [|n IH]; intros s; simpl; [constructor|].
  apply StronglySorted_cons. split; [|apply IH].
  apply Forall_forall. intros k [? ?]%elem_of_seq. lia.
Qed.

Lemma imap_index_increasing {A B : Type} (f : nat → A → B) (tie : B → nat)
    (l : list A) :
  (∀ i x, tie (f i x) = i) →
  StronglySorted (λ x y, (tie x < tie y)%nat) (imap f l).
Proof.
  intros Htie. induction l as [|x l IH] using rev_ind; [constructor|].
  rewrite imap_app. apply StronglySorted_app. split_and!.
  - intros y z Hy Hz. simpl in Hz. apply list_elem_of_singleton in Hz as ->.
    apply list_elem_of_lookup in Hy as [k Hk].
    rewrite list_lookup_imap in Hk.
    destruct (l !! k) as [a|] eqn:Hl; simplify_eq/=.
    rewrite !Htie. apply lookup_lt_Some in Hl. lia.
  - done.
  - simpl. repeat constructor.
Qed.

(** When the keys of the input are the numbers [0 .. n-1] in some
    order, the sorted list has the element with key [a] at position
    [a]. *)
Lemma sorted_by_index_keys {A : Type} (index : A → nat) (l : list A) :
  index <$> l ≡ₚ seq 0 (length l) →
  index <$> sorted (λ x, Z.of_nat (index x)) l = seq 0 (length l).
Proof.
  intros Hperm. apply (StronglySorted_unique le).
  - apply (StronglySorted_fmap index (λ y z, Z.of_nat (index y) ≤ Z.of_nat (index z))).
    + intros y z. lia.
    + apply sorted_le_sorted.
  - apply StronglySorted_seq.
  - by rewrite (sorted_perm _ l).
Qed.

(** ** Structural reordering *)

Lemma reorder_stages (row_bboxes : list Box) (row_label_list : list string)
    (ranks : list Z) :
  reorder row_bboxes row_label_list ranks =
  (row_bbox <$> reranked (reading_order row_bboxes row_label_list ranks),
   row_rank <$> reranked (reading_order row_bboxes row_label_list ranks)).
Proof. done. Qed.

Lemma group_of_header (label : string) : group_of label = 0 ↔ label = "Page-header".
Proof. unfold group_of. repeat case_decide; split; (done || lia || congruence). Qed.

Lemma group_of_footer (label : string) : group_of label = 2 ↔ label = "Page-footer".
Proof. unfold group_of. repeat case_decide; split; (done || lia || congruence). Qed.

Lemma group_of_body (label : string) :
  group_of label = 1 ↔ label ∉ ["Page-header"; "Page-footer"].
Proof.
  unfold group_of. rewrite !not_elem_of_cons.
  repeat case_decide; split; try (done || lia); subst.
  - intros (? & ? & _). done.
  - intros (? & ? & _). done.
  - intros _. split_and!; [done|done|]. apply not_elem_of_nil.
Qed.

Lemma not_header_footer (label : string) :
  label ∉ ["Page-header"; "Page-footer"] ↔
  label ≠ "Page-header" ∧ label ≠ "Page-footer".
Proof.
  rewrite !not_elem_of_cons. split; [tauto|].
  intros [? ?]. split_and!; [done|done|apply not_elem_of_nil].
Qed.

Lemma group_of_range (label : string) : 0 ≤ group_of label ≤ 2.
Proof. unfold group_of. repeat case_decide; lia. Qed.

Lemma combined_rows_lookup (row_bboxes : list Box) (row_label_list : list string)
    (ranks : list Z) (a : nat) (row : Row) :
  combined_rows row_bboxes row_label_list ranks !! a = Some row ↔
  row_index row = a ∧ row_bboxes !! a = Some (row_bbox row) ∧
  row_label_list !! a = Some (row_label row) ∧ ranks !! a = Some (row_rank row).
Proof.
  unfold combined_rows, zip3. rewrite list_lookup_imap. split.
  - intros Hrow.
    destruct (zip (zip row_bboxes row_label_list) ranks !! a)
      as [[[bbox label] rank]|] eqn:Hz; simplify_eq/=.
    apply lookup_zip_with_Some in Hz as (bl & rank' & [= <- <-] & Hbl & Hr).
    apply lookup_zip_with_Some in Hbl as (b' & l' & [= <- <-] & Hb & Hl).
    done.
  - intros (<- & Hb & Hl & Hr). destruct row as [i b l r]. simpl in *.
    assert (zip (zip row_bboxes row_label_list) ranks !! i = Some (b, l, r)) as ->; [|done].
    apply lookup_zip_with_Some. exists (b, l), r. split_and!; [done| |done].
    apply lookup_zip_with_Some. by exists b, l.
Qed.

Lemma length_combined_rows (row_bboxes : list Box) (row_label_list : list string)
    (ranks : list Z) :
  length row_label_list = length row_bboxes → length ranks = length row_bboxes →
  length (combined_rows row_bboxes row_label_list ranks) = length row_bboxes.
Proof.
  intros Hl Hr. unfold combined_rows, zip3.
  rewrite length_imap, !length_zip_with. lia.
Qed.

Lemma combined_rows_index (row_bboxes : list Box) (row_label_list : list string)
    (ranks : list Z) :
  row_index <$> combined_rows row_bboxes row_label_list ranks =
  seq 0 (length (combined_rows row_bboxes row_label_list ranks)).
Proof.
  apply list_eq. intros a. rewrite list_lookup_fmap.
  destruct (combined_rows _ _ _ !! a) as [row|] eqn:Hrow; simpl.
  - pose proof (lookup_lt_Some _ _ _ Hrow).
    apply combined_rows_lookup in Hrow as (-> & _).
    symmetry. by apply lookup_seq.
  - symmetry. apply lookup_seq_ge. by apply lookup_ge_None.
Qed.

Lemma combined_rows_increasing (row_bboxes : list Box)
    (row_label_list : list string) (ranks : list Z) :
  StronglySorted (λ x y, (row_index x < row_index y)%nat)
                 (combined_rows row_bboxes row_label_list ranks).
Proof.
  unfold combined_rows. apply imap_index_increasing.
  by intros i [[bbox label] rank].
Qed.

Lemma headers_body_footers_perm (combined : list Row) :
  headers_body_footers combined ≡ₚ combined.
Proof.
  unfold headers_body_footers.
  induction combined as [|row rows IH]; [done|].
  destruct (decide (row_label row = "Page-header")) as [Hh|Hh];
    [|destruct (decide (row_label row = "Page-footer")) as [Hf|Hf]].
  - rewrite (filter_cons_True _ row) by done.
    rewrite (filter_cons_False _ row) by (rewrite not_header_footer; tauto).
    rewrite (filter_cons_False _ row) by (by rewrite Hh).
    simpl. by constructor.
  - rewrite (filter_cons_False _ row) by done.
    rewrite (filter_cons_False _ row) by (rewrite not_header_footer; tauto).
    rewrite (filter_cons_True _ row) by done.
    rewrite app_assoc. symmetry. apply Permutation_cons_app.
    rewrite <- app_assoc. by symmetry.
  - rewrite (filter_cons_False _ row) by done.
    rewrite (filter_cons_True _ row) by (by rewrite not_header_footer).
    rewrite (filter_cons_False _ row) by done.
    simpl. symmetry. apply Permutation_cons_app. by symmetry.
Qed.

Lemma reading_order_perm (row_bboxes : list Box) (row_label_list : list string)
    (ranks : list Z) :
  reading_order row_bboxes row_label_list ranks ≡ₚ
  combined_rows row_bboxes row_label_list ranks.
Proof.
  unfold reading_order. by rewrite headers_body_footers_perm, sorted_perm.
Qed.

Lemma reads_before_irrefl (x : Row) : ¬ reads_before x x.
Proof. unfold reads_before, key_then_tie. lia. Qed.

Lemma reads_before_asym (x y : Row) : reads_before x y → ¬ reads_before y x.
Proof. unfold reads_before, key_then_tie. lia. Qed.

Lemma headers_body_footers_sorted (rows : list Row) :
  StronglySorted (key_then_tie row_rank row_index) rows →
  StronglySorted reads_before (headers_body_footers rows).
Proof.
  intros Hs. unfold headers_body_footers.
  assert (∀ (P : Row → Prop) `{!∀ x, Decision (P x)} g,
            (∀ x, P x → group_of (row_label x) = g) →
            StronglySorted reads_before (filter P rows)) as Hgroup.
  { intros P ? g Hg.
    apply (StronglySorted_weaken (key_then_tie row_rank row_index)).
    - intros x y [Hx _]%list_elem_of_filter [Hy _]%list_elem_of_filter Hxy.
      right. by rewrite (Hg x Hx), (Hg y Hy).
    - by apply StronglySorted_filter. }
  apply StronglySorted_app. split_and!.
  - intros x y [Hx _]%list_elem_of_filter Hy. left.
    apply group_of_header in Hx. rewrite Hx.
    apply elem_of_app in Hy as [[Hy _]%list_elem_of_filter|[Hy _]%list_elem_of_filter].
    + apply group_of_body in Hy. lia.
    + apply group_of_footer in Hy. lia.
  - apply (Hgroup _ _ 0). intros x. apply group_of_header.
  - apply StronglySorted_app. split_and!.
    + intros x y [Hx _]%list_elem_of_filter [Hy _]%list_elem_of_filter. left.
      apply group_of_body in Hx. apply group_of_footer in Hy. lia.
    + apply (Hgroup _ _ 1). intros x. apply group_of_body.
    + apply (Hgroup _ _ 2). intros x. apply group_of_footer.
Qed.

Lemma reading_order_sorted (row_bboxes : list Box) (row_label_list : list string)
    (ranks : list Z) :
  StronglySorted reads_before (reading_order row_bboxes row_label_list ranks).
Proof.
  apply headers_body_footers_sorted, sorted_stable, combined_rows_increasing.
Qed.

Lemma strictly_sorted_lookup_order {A : Type} (R : relation A) (l : list A)
    (p q : nat) (x y : A) :
  (∀ z, ¬ R z z) → (∀ z w, R z w → ¬ R w z) →
  StronglySorted R l → l !! p = Some x → l !! q = Some y → R x y → (p < q)%nat.
Proof.
  intros Hirr Hasym Hs Hp Hq Hxy.
  destruct (Nat.lt_total p q) as [?|[->|Hlt]]; [done| |].
  - assert (x = y) as -> by congruence. by destruct (Hirr y).
  - pose proof (strictly_sorted_lookup_lt R l q p y x Hs Hq Hp Hlt) as Hyx.
    by destruct (Hasym x y).
Qed.

(** After the re-ranking and the sort on the array index, the row of
    index [a] sits at position [a] and carries its place in the new
    reading order. *)
Lemma reranked_lookup (rows : list Row) (p : nat) (row : Row) :
  row_index <$> rows ≡ₚ seq 0 (length rows) →
  rows !! p = Some row →
  reranked rows !! row_index row = Some (set_rank (Z.of_nat p) row).
Proof.
  intros Hperm Hp. unfold reranked.
  set (rows' := imap (λ rank row, set_rank (Z.of_nat rank) row) rows).
  assert (row_index <$> rows' = row_index <$> rows) as Hidx.
  { unfold rows'. rewrite fmap_imap. rewrite <- (imap_const row_index rows).
    by apply imap_ext. }
  assert (length rows' = length rows) as Hlen by apply length_imap.
  pose proof (sorted_by_index_keys row_index rows') as Hkeys.
  rewrite Hidx, Hlen in Hkeys. specialize (Hkeys Hperm).
  assert (row_index row < length rows)%nat as Ha.
  { assert (row_index row ∈ row_index <$> rows) as Hin.
    { apply list_elem_of_fmap_2. by eapply list_elem_of_lookup_2. }
    rewrite Hperm in Hin. apply elem_of_seq in Hin. lia. }
  assert ((row_index <$> sorted (λ r, Z.of_nat (row_index r)) rows')
            !! row_index row = Some (row_index row)) as Hat.
  { rewrite Hkeys. by apply lookup_seq. }
  apply list_lookup_fmap_Some in Hat as (row' & Hrow' & Hat).
  rewrite Hat. f_equal.
  assert (row' ∈ rows') as Hin.
  { apply (elem_of_sorted (λ r, Z.of_nat (row_index r))).
    by eapply list_elem_of_lookup_2. }
  apply list_elem_of_lookup in Hin as [p' Hp'].
  unfold rows' in Hp'. rewrite list_lookup_imap in Hp'.
  destruct (rows !! p') as [row0|] eqn:Hrow0; simplify_eq/=.
  assert (p' = p) as ->; [|congruence].
  assert (NoDup (row_index <$> rows)) as Hnd by (rewrite Hperm; apply NoDup_seq).
  eapply (NoDup_lookup _ _ _ _ Hnd).
  - by rewrite list_lookup_fmap, Hrow0.
  - rewrite list_lookup_fmap, Hp. simpl. by rewrite Hrow'.
Qed.

Lemma reading_order_index (row_bboxes : list Box) (row_label_list : list string)
    (ranks : list Z) :
  row_index <$> reading_order row_bboxes row_label_list ranks ≡ₚ
  seq 0 (length (reading_order row_bboxes row_label_list ranks)).
Proof.
  rewrite (reading_order_perm row_bboxes row_label_list ranks).
  apply reflexive_eq, combined_rows_index.
Qed.

Lemma length_reranked (rows : list Row) : length (reranked rows) = length rows.
Proof. unfold reranked. by rewrite length_sorted, length_imap. Qed.

(** The row of array index [a] and its place in the new reading order. *)
Lemma reading_order_place (row_bboxes : list Box) (row_label_list : list string)
    (ranks : list Z) (a : nat) (row : Row) :
  combined_rows row_bboxes row_label_list ranks !! a = Some row →
  ∃ p, reading_order row_bboxes row_label_list ranks !! p = Some row ∧
       reranked (reading_order row_bboxes row_label_list ranks) !! a
       = Some (set_rank (Z.of_nat p) row).
Proof.
  intros Hrow.
  assert (row ∈ reading_order row_bboxes row_label_list ranks) as Hin.
  { rewrite reading_order_perm. by eapply list_elem_of_lookup_2. }
  apply list_elem_of_lookup in Hin as [p Hp]. exists p. split; [done|].
  apply combined_rows_lookup in Hrow as (<- & _).
  apply reranked_lookup; [apply reading_order_index|done].
Qed.

Section reorder_facts.
Context (row_bboxes : list Box) (row_label_list : list string) (ranks : list Z).
Hypothesis labels_length : length row_label_list = length row_bboxes.
Hypothesis ranks_length : length ranks = length row_bboxes.

Lemma reorder_boxes : (reorder row_bboxes row_label_list ranks).1 = row_bboxes.
Proof.
  rewrite reorder_stages. simpl. apply list_eq. intros a.
  rewrite list_lookup_fmap.
  destruct (combined_rows row_bboxes row_label_list ranks !! a) as [row|] eqn:Hrow.
  - destruct (reading_order_place _ _ _ _ _ Hrow) as (p & _ & ->).
    apply combined_rows_lookup in Hrow as (_ & -> & _). done.
  - apply lookup_ge_None in Hrow.
    rewrite length_combined_rows in Hrow by done.
    rewrite (lookup_ge_None_2 row_bboxes a) by done.
    rewrite (lookup_ge_None_2 (reranked _) a); [done|].
    rewrite length_reranked, reading_order_perm.
    by rewrite length_combined_rows.
Qed.

Lemma length_reorder_ranks :
  length (reorder row_bboxes row_label_list ranks).2 = length row_bboxes.
Proof.
  rewrite reorder_stages. simpl.
  rewrite length_fmap, length_reranked, reading_order_perm.
  by apply length_combined_rows.
Qed.

Lemma reorder_ranks_permutation :
  (reorder row_bboxes row_label_list ranks).2 ≡ₚ iota (length row_bboxes).
Proof.
  rewrite <- length_reorder_ranks.
  apply (places_permutation
           (row_index <$> reading_order row_bboxes row_label_list ranks)).
  - rewrite length_reorder_ranks, <- (length_combined_rows _ _ _ labels_length ranks_length).
    rewrite <- (Permutation_length (reading_order_perm row_bboxes row_label_list ranks)).
    apply reading_order_index.
  - intros p a Hp.
    apply list_lookup_fmap_Some in Hp as (row & -> & Hp).
    rewrite reorder_stages. simpl. rewrite list_lookup_fmap.
    rewrite (reranked_lookup _ p row); [done|apply reading_order_index|done].
Qed.

(** The final rank of a box is its place in the reading order, and
    the reading order is [reads_before]. *)
Lemma reorder_ranks_order (a b : nat) (la lb : string) (ra rb fa fb : Z) :
  row_label_list !! a = Some la → row_label_list !! b = Some lb →
  ranks !! a = Some ra → ranks !! b = Some rb →
  (reorder row_bboxes row_label_list ranks).2 !! a = Some fa →
  (reorder row_bboxes row_label_list ranks).2 !! b = Some fb →
  group_of la < group_of lb ∨ (group_of la = group_of lb ∧ ra < rb) →
  fa < fb.
Proof.
  intros Hla Hlb Hra Hrb Hfa Hfb Horder.
  assert (∀ c lc rc, row_label_list !! c = Some lc → ranks !! c = Some rc →
            ∃ row, combined_rows row_bboxes row_label_list ranks !! c = Some row ∧
                   row_label row = lc ∧ row_rank row = rc ∧ row_index row = c)
    as Hrow.
  { intros c lc rc Hlc Hrc.
    destruct (lookup_lt_is_Some_2 row_bboxes c) as [bc Hbc].
    { apply lookup_lt_Some in Hlc. lia. }
    exists {| row_index := c; row_bbox := bc; row_label := lc; row_rank := rc |}.
    split; [|done]. by apply combined_rows_lookup. }
  destruct (Hrow a la ra Hla Hra) as (rowa & Ha & Hal & Har & Hai).
  destruct (Hrow b lb rb Hlb Hrb) as (rowb & Hb & Hbl & Hbr & Hbi).
  destruct (reading_order_place _ _ _ _ _ Ha) as (p & Hp & Hpa).
  destruct (reading_order_place _ _ _ _ _ Hb) as (q & Hq & Hqb).
  rewrite reorder_stages in Hfa, Hfb. simpl in Hfa, Hfb.
  rewrite list_lookup_fmap, Hpa in Hfa. rewrite list_lookup_fmap, Hqb in Hfb.
  simplify_eq/=.
  enough (p < q)%nat by lia.
  eapply (strictly_sorted_lookup_order reads_before);
    [apply reads_before_irrefl|apply reads_before_asym
    |apply reading_order_sorted|exact Hp|exact Hq|].
  unfold reads_before, key_then_tie. lia.
Qed.
End reorder_facts.

(** ** Validation and result assembly *)

Lemma py_getitem_Ok {A : Type} (l : list A) (i : nat) (x : A) :
  py_getitem l i = Ok x ↔ l !! i = Some x.
Proof. unfold py_getitem. destruct (l !! i); split; intros [=]; by subst. Qed.

Lemma for_each_asserts_Ok {A : Type} (check : A → bool) (xs : list A) :
  for_each (λ x _, py_assert (check x)) xs tt = Ok tt ↔
  Forall (λ x, check x = true) xs.
Proof.
  induction xs as [|x xs IH]; simpl.
  - split; [constructor|done].
  - rewrite Forall_cons, <- IH. destruct (check x); simpl.
    + split; [by intros Hxs|by intros [_ Hxs]].
    + split; [done|by intros [? _]].
Qed.

Lemma check_labels_Ok (images : list Image) (bboxes_all : list (list Box))
    (labels : list (list string)) :
  check_labels images bboxes_all (Some labels) = Ok tt →
  length labels = length images ∧
  ∀ k l b, labels !! k = Some l → bboxes_all !! k = Some b → length l = length b.
Proof.
  unfold check_labels. intros H.
  apply bind_Ok in H as ([] & Hlen & H).
  unfold py_assert in Hlen. case_bool_decide; [|done]. split; [done|].
  assert (for_each (λ x _, py_assert (bool_decide (length x.1 = length x.2)))
                   (zip labels bboxes_all) tt = Ok tt) as H'.
  { rewrite <- H. apply for_each_ext. by intros [l b] []. }
  clear H. apply for_each_asserts_Ok in H'.
  intros k l b Hl Hb. rewrite Forall_lookup in H'.
  specialize (H' k (l, b)). rewrite bool_decide_eq_true in H'. apply H'.
  apply lookup_zip_with_Some. by exists l, b.
Qed.

(** What [order_row] returns when it returns. *)
Lemma order_row_Ok (bboxes_all : list (list Box))
    (labels : option (list (list string))) (orig_sizes : list (Z * Z))
    (i j : nat) (row_pred : list Z) (result : OrderResult) :
  order_row bboxes_all labels orig_sizes i j row_pred = Ok result →
  ∃ row_bboxes orig_size,
    bboxes_all !! (i + j)%nat = Some row_bboxes ∧
    length row_pred = length row_bboxes ∧
    orig_sizes !! j = Some orig_size ∧
    image_bbox result = [0; 0; orig_size.1; orig_size.2] ∧
    match labels with
    | None =>
        bboxes result =
        (λ '(row_bbox, rank), {| bbox := row_bbox; position := rank |})
          <$> zip row_bboxes (rank_elements row_pred)
    | Some labels =>
        ∃ row_label_list, labels !! (i + j)%nat = Some row_label_list ∧
        bboxes result =
        (λ '(row_bbox, rank), {| bbox := row_bbox; position := rank |})
          <$> zip (reorder row_bboxes row_label_list (rank_elements row_pred)).1
                  (reorder row_bboxes row_label_list (rank_elements row_pred)).2
    end.
Proof.
  unfold order_row. intros H.
  apply bind_Ok in H as (row_bboxes & Hb & H). apply py_getitem_Ok in Hb.
  apply bind_Ok in H as ([] & Hlen & H).
  unfold py_assert in Hlen. case_bool_decide; [|done].
  apply bind_Ok in H as (orig_size & Hsize & H). apply py_getitem_Ok in Hsize.
  apply bind_Ok in H as ([boxes' ranks'] & Hre & H).
  injection H as <-. exists row_bboxes, orig_size. split_and!; try done.
  destruct labels as [labels|].
  - apply bind_Ok in Hre as (row_label_list & Hl & Hre).
    apply py_getitem_Ok in Hl.
    exists row_label_list. split; [done|].
    by assert (reorder row_bboxes row_label_list (rank_elements row_pred)
               = (boxes', ranks')) as -> by congruence.
  - by assert ((row_bboxes, rank_elements row_pred) = (boxes', ranks'))
      as [= <- <-] by congruence.
Qed.

Lemma fmap_zip_fst {A B C : Type} (f : A → C) (l : list A) (k : list B) :
  length l = length k →
  (λ x : A * B, f x.1) <$> zip l k = f <$> l.
Proof.
  revert k. induction l as [|x l IH]; intros [|y k] Hlen; simplify_eq/=; [done|].
  f_equal. by apply IH.
Qed.

Lemma fmap_zip_snd {A B C : Type} (f : B → C) (l : list A) (k : list B) :
  length l = length k →
  (λ x : A * B, f x.2) <$> zip l k = f <$> k.
Proof.
  revert k. induction l as [|x l IH]; intros [|y k] Hlen; simplify_eq/=; [done|].
  f_equal. by apply IH.
Qed.

Lemma order_boxes_position (row_bboxes : list Box) (ranks : list Z) :
  length row_bboxes = length ranks →
  position <$> ((λ '(row_bbox, rank), {| bbox := row_bbox; position := rank |})
                  <$> zip row_bboxes ranks) = ranks.
Proof.
  intros Hlen. rewrite <- list_fmap_compose.
  rewrite <- (list_fmap_id ranks) at 2. rewrite <- (fmap_zip_snd id row_bboxes ranks Hlen).
  apply list_fmap_ext. by intros k [b r] _.
Qed.

Lemma order_boxes_bbox (row_bboxes : list Box) (ranks : list Z) :
  length row_bboxes = length ranks →
  bbox <$> ((λ '(row_bbox, rank), {| bbox := row_bbox; position := rank |})
              <$> zip row_bboxes ranks) = row_bboxes.
Proof.
  intros Hlen. rewrite <- list_fmap_compose.
  rewrite <- (list_fmap_id row_bboxes) at 2.
  rewrite <- (fmap_zip_fst id row_bboxes ranks Hlen).
  apply list_fmap_ext. by intros k [b r] _.
Qed.

Lemma for_each_append_Ok {A R : Type} (f : A → result R) (xs : list A)
    (out results : list R) :
  for_each (λ x acc, r ← f x; Ok (acc ++ [r])) xs out = Ok results ↔
  ∃ rs, results = out ++ rs ∧ Forall2 (λ x r, f x = Ok r) xs rs.
Proof.
  revert out. induction xs as [|x xs IH]; intros out; simpl.
  - split.
    + intros [= <-]. exists []. by rewrite app_nil_r.
    + intros (rs & -> & ->%Forall2_nil_inv_l). by rewrite app_nil_r.
  - destruct (f x) as [r|e] eqn:Hx; simpl.
    + rewrite IH. split.
      * intros (rs & -> & Hrs). exists (r :: rs).
        rewrite <- app_assoc. split; [done|]. by constructor.
      * intros (rs & -> & Hrs).
        apply Forall2_cons_inv_l in Hrs as (r' & rs' & Hr & Hrs & ->).
        exists rs'. rewrite <- app_assoc. split; [|done].
        by assert (r' = r) as -> by congruence.
    + split; [done|]. intros (rs & _ & Hrs).
      apply Forall2_cons_inv_l in Hrs as (r' & rs' & Hr & _). congruence.
Qed.

Lemma assemble_batch_Ok (bboxes_all : list (list Box))
    (labels : option (list (list string))) (orig_sizes : list (Z * Z))
    (i : nat) (batch_predictions : list (list Z))
    (output_order results : list OrderResult) :
  assemble_batch bboxes_all labels orig_sizes i batch_predictions output_order
    = Ok results ↔
  ∃ rs, results = output_order ++ rs ∧ length rs = length batch_predictions ∧
        ∀ j row_pred, batch_predictions !! j = Some row_pred →
          ∃ r, rs !! j = Some r ∧
               order_row bboxes_all labels orig_sizes i j row_pred = Ok r.
Proof.
  unfold assemble_batch.
  rewrite (for_each_ext _
    (λ x acc, r ← order_row bboxes_all labels orig_sizes i x.1 x.2; Ok (acc ++ [r])))
    by (by intros [j p] acc).
  rewrite for_each_append_Ok. split.
  - intros (rs & -> & Hrs). exists rs. split; [done|].
    pose proof (Forall2_length _ _ _ Hrs) as Hlen.
    rewrite length_enumerate in Hlen. split; [done|].
    intros j row_pred Hj.
    destruct (lookup_lt_is_Some_2 rs j) as [r Hr].
    { apply lookup_lt_Some in Hj. lia. }
    exists r. split; [done|].
    eapply (Forall2_lookup_lr _ _ _ j (j, row_pred) r) in Hrs; [done| |done].
    by rewrite enumerate_lookup, Hj.
  - intros (rs & -> & Hlen & Hrs). exists rs. split; [done|].
    apply Forall2_same_length_lookup. split.
    + by rewrite length_enumerate.
    + intros j [j' p] r Hj Hr. rewrite enumerate_lookup in Hj.
      destruct (batch_predictions !! j) as [p'|] eqn:Hp; simplify_eq/=.
      destruct (Hrs j' p Hp) as (r' & Hr' & Hok). congruence.
Qed.

(** ** The ranks of [rank_elements] *)

(** C6.  For every list of integers (duplicates allowed),
    [rank_elements] returns a list of the same length whose entry at
    position [i] is the 0-based rank of [arr[i]] under ascending order
    with ties broken by original position: the number of values below
    it plus the number of equal values in front of it.  In particular
    [rank_elements([3,1,2]) == [2,0,1]] and
    [rank_elements([5,5,5]) == [0,1,2]]. *)
Theorem rank_elements_stable_ranks (arr : list Z) :
  rank_elements arr = imap (λ i v, Z.of_nat (stable_rank arr i v)) arr ∧
  rank_elements [3; 1; 2] = [2; 0; 1] ∧
  rank_elements [5; 5; 5] = [0; 1; 2].
Proof.
  split; [|done]. apply list_eq. intros i. rewrite list_lookup_imap.
  destruct (arr !! i) as [v|] eqn:Hi; simpl.
  - by apply rank_elements_lookup.
  - apply lookup_ge_None. rewrite length_rank_elements. by apply lookup_ge_None.
Qed.

(** C10, as stated, fails: [[1, 2, 0]] is a permutation of [0, 3), and
    [rank_elements] maps it to itself, so the entry at [arr[0] = 1] is
    2 and not 0. *)
Lemma rank_elements_not_inverse :
  [1; 2; 0] ≡ₚ iota 3 ∧
  rank_elements [1; 2; 0] = [1; 2; 0] ∧
  ¬ (∀ (i : nat) (v : Z), [1; 2; 0] !! i = Some v →
       rank_elements [1; 2; 0] !! Z.to_nat v = Some (Z.of_nat i)).
Proof.
  split_and!.
  - apply (Permutation_trans (l' := [1; 0; 2])); [apply perm_skip, perm_swap|].
    apply perm_swap.
  - done.
  - intros H. specialize (H 0%nat 1 eq_refl). vm_compute in H. discriminate H.
Qed.

(** C10, amended.  On a permutation of [0, N), [rank_elements] is the
    identity (not the inverse permutation), and so applying it twice
    gives the list back. *)
Theorem rank_elements_permutation_identity (arr : list Z) :
  arr ≡ₚ iota (length arr) →
  rank_elements arr = arr ∧ rank_elements (rank_elements arr) = arr.
Proof.
  intros Hperm. pose proof (rank_elements_of_permutation arr Hperm) as Hid.
  by rewrite !Hid.
Qed.

Lemma rank_elements_permutation_identity_witness :
  [2; 0; 3; 1] ≡ₚ iota (length [2; 0; 3; 1]) ∧
  rank_elements [2; 0; 3; 1] = [2; 0; 3; 1] ∧
  rank_elements (rank_elements [2; 0; 3; 1]) = [2; 0; 3; 1].
Proof.
  assert ([2; 0; 3; 1] ≡ₚ iota (length [2; 0; 3; 1])) as Hperm.
  { apply (Permutation_trans (l' := [0; 2; 3; 1])); [apply perm_swap|].
    apply perm_skip.
    apply (Permutation_trans (l' := [2; 1; 3])); [apply perm_skip, perm_swap|].
    apply perm_swap. }
  split; [exact Hperm|].
  exact (rank_elements_permutation_identity [2; 0; 3; 1] Hperm).
Defined.

(** C5.  With a label list, the structural reordering returns the boxes
    in their original array order, gives every box labelled exactly
    "Page-header" a final rank below every box that is not, gives every
    box labelled exactly "Page-footer" a final rank above every box that
    is not, and keeps the raw-rank order inside each of the three
    groups. *)
Theorem reorder_header_footer_law (row_bboxes : list Box)
    (row_label_list : list string) (ranks : list Z) :
  length row_label_list = length row_bboxes →
  length ranks = length row_bboxes →
  (reorder row_bboxes row_label_list ranks).1 = row_bboxes ∧
  length (reorder row_bboxes row_label_list ranks).2 = length row_bboxes ∧
  ∀ (a b : nat) (la lb : string) (ra rb fa fb : Z),
    row_label_list !! a = Some la → row_label_list !! b = Some lb →
    ranks !! a = Some ra → ranks !! b = Some rb →
    (reorder row_bboxes row_label_list ranks).2 !! a = Some fa →
    (reorder row_bboxes row_label_list ranks).2 !! b = Some fb →
    (la = "Page-header" → lb ≠ "Page-header" → fa < fb) ∧
    (la = "Page-footer" → lb ≠ "Page-footer" → fb < fa) ∧
    (group_of la = group_of lb → ra < rb → fa < fb).
Proof.
  intros Hl Hr. split_and!.
  - by apply reorder_boxes.
  - by apply length_reorder_ranks.
  - intros a b la lb ra rb fa fb Hla Hlb Hra Hrb Hfa Hfb.
    pose proof (reorder_ranks_order row_bboxes row_label_list ranks Hl Hr) as Hord.
    pose proof (group_of_range la). pose proof (group_of_range lb).
    split_and!.
    + intros Ha Hb. apply (Hord a b la lb ra rb); try done. left.
      apply group_of_header in Ha. rewrite <- group_of_header in Hb. lia.
    + intros Ha Hb. apply (Hord b a lb la rb ra); try done. left.
      apply group_of_footer in Ha. rewrite <- group_of_footer in Hb. lia.
    + intros Hg Hlt. apply (Hord a b la lb ra rb); try done. by right.
Qed.

Lemma reorder_header_footer_law_witness :
  let row_bboxes : list Box := [[1%Q]; [2%Q]; [3%Q]; [4%Q]] in
  let row_label_list := ["Page-footer"; "Text"; "Page-header"; "Text"] in
  let ranks := [0; 2; 3; 1] in
  reorder row_bboxes row_label_list ranks = (row_bboxes, [3; 2; 0; 1]) ∧
  (reorder row_bboxes row_label_list ranks).1 = row_bboxes ∧
  length (reorder row_bboxes row_label_list ranks).2 = length row_bboxes ∧
  ∀ (a b : nat) (la lb : string) (ra rb fa fb : Z),
    row_label_list !! a = Some la → row_label_list !! b = Some lb →
    ranks !! a = Some ra → ranks !! b = Some rb →
    (reorder row_bboxes row_label_list ranks).2 !! a = Some fa →
    (reorder row_bboxes row_label_list ranks).2 !! b = Some fb →
    (la = "Page-header" → lb ≠ "Page-header" → fa < fb) ∧
    (la = "Page-footer" → lb ≠ "Page-footer" → fb < fa) ∧
    (group_of la = group_of lb → ra < rb → fa < fb).
Proof.
  intros row_bboxes row_label_list ranks. split; [reflexivity|].
  apply (reorder_header_footer_law row_bboxes row_label_list ranks);
    reflexivity.
Defined.

(** C2.  A sample that passes the validation of line 106 gets final
    positions that are exactly the numbers 0 .. N-1, each once, N being
    its box count, with labels and without. *)
Theorem order_row_positions_dense (images : list Image)
    (bboxes_all : list (list Box)) (labels : option (list (list string)))
    (orig_sizes : list (Z * Z)) (i j : nat) (row_pred : list Z)
    (row_bboxes : list Box) (result : OrderResult) :
  check_labels images bboxes_all labels = Ok tt →
  bboxes_all !! (i + j)%nat = Some row_bboxes →
  order_row bboxes_all labels orig_sizes i j row_pred = Ok result →
  position <$> bboxes result ≡ₚ iota (length row_bboxes).
Proof.
  intros Hcheck Hb Hok.
  apply order_row_Ok in Hok
    as (row_bboxes' & orig_size & Hb' & Hlen & _ & _ & Hboxes).
  assert (row_bboxes' = row_bboxes) as -> by congruence.
  pose proof (length_rank_elements row_pred) as Hranks.
  destruct labels as [labels|].
  - destruct Hboxes as (row_label_list & Hl & ->).
    apply check_labels_Ok in Hcheck as [_ Hlabels].
    pose proof (Hlabels _ _ _ Hl Hb) as Hll.
    assert (length (rank_elements row_pred) = length row_bboxes) as Hrr by lia.
    rewrite order_boxes_position.
    + by apply reorder_ranks_permutation.
    + by rewrite reorder_boxes, length_reorder_ranks.
  - rewrite Hboxes, order_boxes_position by lia.
    rewrite <- Hlen. apply rank_elements_permutation.
Qed.

Lemma order_row_positions_dense_witness :
  let image := {| mode := "RGB"; size := (640, 480) |} in
  let bboxes_all : list (list Box) :=
    [[[1%Q; 1%Q; 10%Q; 20%Q]; [2%Q; 2%Q; 10%Q; 20%Q];
      [3%Q; 3%Q; 10%Q; 20%Q]; [4%Q; 4%Q; 10%Q; 20%Q]]] in
  let labels := Some [["Page-footer"; "Text"; "Page-header"; "Text"]] in
  let result :=
    {| bboxes := [ {| bbox := [1%Q; 1%Q; 10%Q; 20%Q]; position := 3 |};
                   {| bbox := [2%Q; 2%Q; 10%Q; 20%Q]; position := 2 |};
                   {| bbox := [3%Q; 3%Q; 10%Q; 20%Q]; position := 0 |};
                   {| bbox := [4%Q; 4%Q; 10%Q; 20%Q]; position := 1 |} ];
       image_bbox := [0; 0; 640; 480] |} in
  order_row bboxes_all labels [(640, 480)] 0 0 [7; 7; 9; 5] = Ok result ∧
  position <$> bboxes result ≡ₚ iota 4.
Proof.
  intros image bboxes_all labels result.
  assert (order_row bboxes_all labels [(640, 480)] 0 0 [7; 7; 9; 5] = Ok result)
    as Hok by reflexivity.
  split; [exact Hok|].
  exact (order_row_positions_dense [image] bboxes_all labels [(640, 480)] 0 0
           [7; 7; 9; 5] _ result eq_refl eq_refl Hok).
Defined.

Lemma slice_lookup {A : Type} (l : list A) (i n j : nat) (x : A) :
  slice l i n !! j = Some x ↔ (j < n)%nat ∧ l !! (i + j)%nat = Some x.
Proof.
  unfold slice. rewrite lookup_take_Some, lookup_drop. tauto.
Qed.

Lemma length_slice {A : Type} (l : list A) (i n : nat) :
  length (slice l i n) = (n `min` (length l - i))%nat.
Proof. unfold slice. by rewrite length_take, length_drop. Qed.

(** The sizes recorded at line 49 are those of the submitted images. *)
Lemma orig_sizes_lookup (images : list Image) (i n j : nat) (orig_size : Z * Z) :
  (size <$> slice (convert_RGB <$> images) i n) !! j = Some orig_size →
  ∃ image, images !! (i + j)%nat = Some image ∧ orig_size = size image.
Proof.
  intros (im & -> & Him)%list_lookup_fmap_Some.
  apply slice_lookup in Him as [_ Him].
  apply list_lookup_fmap_Some in Him as (image & -> & Him).
  by exists image.
Qed.

(** C9.  Without labels, every sample of a batch gets the raw ranks of
    [rank_elements] over its predictions as final positions, its boxes
    in the submitted order, and [[0, 0, width, height]] of the submitted
    image as [image_bbox]. *)
Theorem no_label_passthrough (images : list Image) (bboxes_all : list (list Box))
    (batch_size i : nat) (batch_predictions : list (list Z))
    (output_order results : list OrderResult) :
  assemble_batch bboxes_all None
    (size <$> slice (convert_RGB <$> images) i batch_size)
    i batch_predictions output_order = Ok results →
  ∃ rs, results = output_order ++ rs ∧ length rs = length batch_predictions ∧
    ∀ j row_pred, batch_predictions !! j = Some row_pred →
      ∃ row_bboxes image result,
        bboxes_all !! (i + j)%nat = Some row_bboxes ∧
        images !! (i + j)%nat = Some image ∧
        rs !! j = Some result ∧
        position <$> bboxes result = rank_elements row_pred ∧
        bbox <$> bboxes result = row_bboxes ∧
        image_bbox result = [0; 0; (size image).1; (size image).2].
Proof.
  intros (rs & -> & Hlen & Hrows)%assemble_batch_Ok.
  exists rs. split_and!; [done|done|].
  intros j row_pred Hj. destruct (Hrows j row_pred Hj) as (r & Hr & Hok).
  apply order_row_Ok in Hok
    as (row_bboxes & orig_size & Hb & Hcount & Hsize & Himg & Hboxes).
  apply orig_sizes_lookup in Hsize as (image & Him & ->).
  exists row_bboxes, image, r. split_and!; try done.
  - rewrite Hboxes, order_boxes_position; [done|].
    by rewrite length_rank_elements.
  - rewrite Hboxes, order_boxes_bbox; [done|].
    by rewrite length_rank_elements.
Qed.

Lemma no_label_passthrough_witness :
  let images := [ {| mode := "L"; size := (640, 480) |};
                  {| mode := "RGB"; size := (100, 200) |} ] in
  let bboxes_all : list (list Box) :=
    [[[9%Q; 9%Q; 10%Q; 20%Q]];
     [[1%Q; 1%Q; 10%Q; 20%Q]; [2%Q; 2%Q; 10%Q; 20%Q]; [3%Q; 3%Q; 10%Q; 20%Q]]] in
  let results :=
    [ {| bboxes := [ {| bbox := [1%Q; 1%Q; 10%Q; 20%Q]; position := 2 |};
                     {| bbox := [2%Q; 2%Q; 10%Q; 20%Q]; position := 0 |};
                     {| bbox := [3%Q; 3%Q; 10%Q; 20%Q]; position := 1 |} ];
         image_bbox := [0; 0; 100; 200] |} ] in
  assemble_batch bboxes_all None (size <$> slice (convert_RGB <$> images) 1 4)
                 1 [[2; 0; 1]] [] = Ok results ∧
  ∃ rs, results = [] ++ rs ∧ length rs = length [[2; 0; 1]] ∧
    ∀ j row_pred, [[2; 0; 1]] !! j = Some row_pred →
      ∃ row_bboxes image result,
        bboxes_all !! (1 + j)%nat = Some row_bboxes ∧
        images !! (1 + j)%nat = Some image ∧
        rs !! j = Some result ∧
        position <$> bboxes result = rank_elements row_pred ∧
        bbox <$> bboxes result = row_bboxes ∧
        image_bbox result = [0; 0; (size image).1; (size image).2].
Proof.
  intros images bboxes_all results.
  assert (assemble_batch bboxes_all None
            (size <$> slice (convert_RGB <$> images) 1 4) 1 [[2; 0; 1]] []
          = Ok results) as Hok by reflexivity.
  split; [exact Hok|].
  exact (no_label_passthrough images bboxes_all 4 1 [[2; 0; 1]] [] results Hok).
Defined.

(** ** The decoding loop *)

Section decode_facts.
Context {Pixels Counts Cache Encoded : Type}.
Context (processor : @Processor Pixels Counts).
Context (model : @Model Pixels Counts Cache Encoded).

(** What the body of the loop over the samples does for sample [j]. *)
Lemma decode_row_Ok (logits : list (list Q)) (j : nat) (s s' : StepLists) :
  decode_row processor logits j s = Ok s' →
  ∃ logits_j predictions_j pred,
    logits !! j = Some logits_j ∧
    batch_predictions s !! j = Some predictions_j ∧
    argmax logits_j = Ok pred ∧
    if decide (Z.of_nat pred = token_pad_id processor) then
      batch_predictions s' = batch_predictions s ∧
      (j < length (done s))%nat ∧
      done s' = <[j := true]> (done s)
    else
      batch_predictions s' =
        <[j := predictions_j ++ [Z.of_nat pred - box_size_height processor]]>
          (batch_predictions s) ∧
      done s' = done s.
Proof.
  unfold decode_row. intros H.
  apply bind_Ok in H as (logits_j & Hl & H). apply py_getitem_Ok in Hl.
  apply bind_Ok in H as (predictions_j & Hp & H). apply py_getitem_Ok in Hp.
  apply bind_Ok in H as (new_logits & _ & H).
  apply bind_Ok in H as (pred & Hpred & H).
  exists logits_j, predictions_j, pred. split_and!; try done.
  case_decide.
  - apply bind_Ok in H as (done' & Hd & H). injection H as <-.
    unfold py_setitem in Hd. case_decide; [|done]. by injection Hd as <-.
  - by injection H as <-.
Qed.

(** Line 80 as written: the first item of [range(...)] cannot be
    bound to the target list. *)
Lemma decode_rows_TypeError (logits : list (list Q))
    (batch_predictions : list (list Z)) (done : list bool) :
  logits ≠ [] → decode_rows processor logits batch_predictions done = Err TypeError.
Proof. by destruct logits. Qed.

Lemma decode_rows_nil (batch_predictions : list (list Z)) (done : list bool) :
  decode_rows processor [] batch_predictions done =
  Ok {| last_tokens := []; last_token_mask := [];
        batch_predictions := batch_predictions; done := done |}.
Proof. done. Qed.

(** The step leaves through [break] exactly when every sample is DONE
    after it; it calls the model once, and it counts in [token_count]
    when it does not leave. *)
Lemma decode_step_Ok (pixels : Pixels) (counts : Counts)
    (st st' : DecodeState) (break : bool) :
  decode_step processor model pixels counts st = Ok (st', break) →
  break = forallb id (finished st') ∧ model_calls st' = S (model_calls st) ∧
  token_count st' = if break then token_count st else token_count st + 1.
Proof.
  unfold decode_step. intros H. apply bind_Ok in H as (s & _ & H).
  destruct (forallb id (done s)) eqn:Hall; by injection H as <- <-.
Qed.

Lemma unbroken_unfold (k : nat) (pixels : Pixels) (counts : Counts)
    (st : DecodeState) :
  unbroken processor model (S k) pixels counts st =
  match decode_step processor model pixels counts st with
  | Ok (st1, false) => unbroken processor model k pixels counts st1
  | _ => None
  end.
Proof. done. Qed.

Lemma unbroken_S (k : nat) (pixels : Pixels) (counts : Counts)
    (st st' : DecodeState) :
  unbroken processor model (S k) pixels counts st = Some st' ↔
  ∃ st_k, unbroken processor model k pixels counts st = Some st_k ∧
          decode_step processor model pixels counts st_k = Ok (st', false).
Proof.
  revert st. induction k as [|k IH]; intros st.
  - rewrite unbroken_unfold. simpl. split.
    + intros H. exists st. split; [done|].
      destruct (decode_step _ _ _ _ st) as [[st1 []]|e]; try done.
      by injection H as ->.
    + by intros (st_k & [= <-] & ->).
  - rewrite unbroken_unfold. split.
    + intros H.
      destruct (decode_step _ _ _ _ st) as [[st1 []]|e] eqn:Hstep; try done.
      apply IH in H as (st_k & Hk & Hlast). exists st_k. split; [|done].
      by rewrite unbroken_unfold, Hstep.
    + intros (st_k & Hk & Hlast). rewrite unbroken_unfold in Hk.
      destruct (decode_step _ _ _ _ st) as [[st1 []]|e]; try done.
      apply IH. by exists st_k.
Qed.

Lemma unbroken_active (k : nat) (pixels : Pixels) (counts : Counts)
    (st st' : DecodeState) :
  unbroken processor model (S k) pixels counts st = Some st' →
  forallb id (finished st') = false ∧
  model_calls st' = (model_calls st + S k)%nat ∧
  token_count st' = token_count st + Z.of_nat (S k).
Proof.
  revert st'. induction k as [|k IH]; intros st' Hk.
  - apply unbroken_S in Hk as (st0 & [= <-] & Hstep).
    apply decode_step_Ok in Hstep as (? & ? & ?). split_and!; [done|lia|lia].
  - apply unbroken_S in Hk as (st_k & Hk & Hstep).
    apply IH in Hk as (_ & Hcalls & Htokens).
    apply decode_step_Ok in Hstep as (? & ? & ?). split_and!; [done|lia|lia].
Qed.

(** The three ways the loop ends. *)
Lemma decode_while_run (left : nat) (pixels : Pixels) (counts : Counts)
    (st : DecodeState) :
  ∃ k st_k,
    (k ≤ left)%nat ∧ unbroken processor model k pixels counts st = Some st_k ∧
    (((k < left)%nat ∧ ∃ st',
        decode_step processor model pixels counts st_k = Ok (st', true) ∧
        decode_while processor model left pixels counts st = Ok st') ∨
     ((k < left)%nat ∧ ∃ e,
        decode_step processor model pixels counts st_k = Err e ∧
        decode_while processor model left pixels counts st = Err e) ∨
     (k = left ∧ decode_while processor model left pixels counts st = Ok st_k)).
Proof.
  revert st. induction left as [|left IH]; intros st.
  - exists 0%nat, st. split_and!; [done|done|]. by right; right.
  - simpl. destruct (decode_step processor model pixels counts st)
      as [[st1 []]|e] eqn:Hstep.
    + exists 0%nat, st. split_and!; [lia|done|]. left. split; [lia|].
      by exists st1.
    + destruct (IH st1) as (k & st_k & Hk & Hun & Hcases).
      exists (S k), st_k. split_and!; [lia|by simpl; rewrite Hstep|].
      simpl. destruct Hcases as [[? ?]|[[? ?]|[-> ?]]].
      * left. split; [lia|done].
      * right; left. split; [lia|done].
      * by right; right.
    + exists 0%nat, st. split_and!; [lia|done|]. right; left. split; [lia|].
      by exists e.
Qed.
End decode_facts.

(** C7.  The decoding loop of a batch runs at most [ORDER_MAX_BOXES]
    iterations, each with one call of the model, and ends in one of
    three ways: through [break], right after the first iteration that
    leaves every sample DONE; with the exception an iteration raised;
    or at the cap, with the predictions accumulated by then.  After
    every iteration that did not end the loop some sample is not
    DONE, and [token_count] is the number of these iterations, so the
    guard of line 67 fails exactly at the cap. *)
Theorem decoding_loop_terminates {Pixels Counts Cache Encoded : Type}
    (settings : Settings) (processor : @Processor Pixels Counts)
    (model : @Model Pixels Counts Cache Encoded)
    (batch_images : list Image) (batch_boxes : list (list Box)) :
  let model_inputs := preprocess processor batch_images batch_boxes in
  let pixels := pixel_values model_inputs in
  let counts := input_boxes_counts model_inputs in
  let st0 : @DecodeState Cache Encoded :=
    decode_init model_inputs (length batch_images) in
  let cap := Z.to_nat (ORDER_MAX_BOXES settings) in
  ∃ k st_k,
    (k ≤ cap)%nat ∧
    unbroken processor model k pixels counts st0 = Some st_k ∧
    model_calls st_k = k ∧ token_count st_k = Z.of_nat k ∧
    (token_count st_k < ORDER_MAX_BOXES settings ↔ (k < cap)%nat) ∧
    (∀ j st_j, (0 < j ≤ k)%nat →
       unbroken processor model j pixels counts st0 = Some st_j →
       forallb id (finished st_j) = false) ∧
    (((k < cap)%nat ∧ ∃ st',
        decode_step processor model pixels counts st_k = Ok (st', true) ∧
        forallb id (finished st') = true ∧ model_calls st' = S k ∧
        decode_batch settings processor model batch_images batch_boxes = Ok st') ∨
     ((k < cap)%nat ∧ ∃ e,
        decode_step processor model pixels counts st_k = Err e ∧
        decode_batch settings processor model batch_images batch_boxes = Err e) ∨
     (k = cap ∧
        decode_batch settings processor model batch_images batch_boxes = Ok st_k)).
Proof.
  intros model_inputs pixels counts st0 cap.
  destruct (decode_while_run processor model cap pixels counts st0)
    as (k & st_k & Hk & Hun & Hcases).
  assert (model_calls st_k = k ∧ token_count st_k = Z.of_nat k) as [Hcalls Htokens].
  { destruct k as [|k]; [by injection Hun as <-|].
    apply unbroken_active in Hun as (_ & -> & ->). simpl. lia. }
  exists k, st_k. split_and!; [done|done|done|done|lia| |].
  - intros [|j] st_j Hj Hst_j; [lia|]. by apply unbroken_active in Hst_j as [? _].
  - destruct Hcases as [[Hlt (st' & Hstep & Hout)]|[[Hlt (e & Hstep & Hout)]|[-> Hout]]].
    + left. split; [done|]. exists st'.
      pose proof (decode_step_Ok _ _ _ _ _ _ _ Hstep) as (Hall & Hcount & _).
      split_and!; [done|done|lia|done].
    + right; left. split; [done|]. by exists e.
    + by right; right.
Qed.

(** The loop on one sample and a model that answers with no row of
    logits: the cap ends it, with nothing predicted. *)
Example decoding_loop_cap :
  ∃ st, decode_batch (example_settings 4 3) (example_processor 3 0)
                     (example_model []) [example_image 10 20] [[]] = Ok st ∧
        model_calls st = 3%nat ∧ token_count st = 3 ∧
        predictions st = [[]] ∧ finished st = [false].
Proof. eexists. split; [reflexivity|]. done. Qed.

(** The loop on a batch without samples: the first iteration leaves
    through [break]. *)
Example decoding_loop_break :
  ∃ st, decode_batch (example_settings 4 256) (example_processor 3 0)
                     (example_model []) [] [] = Ok st ∧
        model_calls st = 1%nat ∧ token_count st = 0 ∧
        predictions st = [] ∧ finished st = [].
Proof. eexists. split; [reflexivity|]. done. Qed.

(** C1, on the code.  With index 1 already predicted, the masked row
    has its largest score at index 2, and that is what the
    specification selects; the body of the loop takes the arg-max of
    the row as the model returned it, selects index 1 again and appends
    it a second time.  The loop over the samples itself raises
    [TypeError] on the first sample, as its target [j,] cannot be bound
    to an integer. *)
Theorem argmax_ignores_mask :
  let processor := example_processor 4 0 in
  let logits_0 : list Q := [0%Q; 9%Q; 3%Q; 1%Q; 2%Q] in
  let s := {| last_tokens := []; last_token_mask := [];
              batch_predictions := [[1]]; done := [false] |} in
  (∃ new_logits, index_fill logits_0 [1] masked_score = Ok new_logits ∧
                 argmax new_logits = Ok 2%nat) ∧
  decode_row processor [logits_0] 0 s =
    Ok {| last_tokens := [[1; 1; 1; 1]]; last_token_mask := [[1]];
          batch_predictions := [[1; 1]]; done := [false] |} ∧
  decode_rows processor [logits_0] [[]] [false] = Err TypeError ∧
  batch_ordering (example_settings 4 256) processor (example_model [logits_0])
                 [example_image 10 20] [[[1%Q]; [2%Q]; [3%Q]; [4%Q]]] None
    = Err TypeError.
Proof.
  intros processor logits_0 s. split_and!; try reflexivity.
  eexists. split; reflexivity.
Qed.

(** ** The batches *)

Lemma for_each_invariant {A S : Type} (P : S → Prop) (body : A → S → result S)
    (xs : list A) (acc acc' : S) :
  (∀ x s s', body x s = Ok s' → P s → P s') →
  P acc → for_each body xs acc = Ok acc' → P acc'.
Proof.
  intros Hbody. revert acc. induction xs as [|x xs IH]; intros acc Hacc; simpl.
  - by intros [= <-].
  - intros (s & Hs & Hrest)%bind_Ok. eapply IH; [|exact Hrest]. eauto.
Qed.

(** The first iteration that is bound to raise [e], behind iterations
    that complete or raise [e] as well, makes the loop raise [e]. *)
Lemma for_each_raises {A St : Type} (body : A → St → result St) (e : exn)
    (xs : list A) (n : nat) (x : A) (acc : St) :
  xs !! n = Some x →
  (∀ m y s, (m < n)%nat → xs !! m = Some y →
     (∃ s', body y s = Ok s') ∨ body y s = Err e) →
  (∀ s, body x s = Err e) →
  for_each body xs acc = Err e.
Proof.
  revert n acc. induction xs as [|y xs IH]; intros n acc Hn Hbefore Hx; [done|].
  destruct n as [|n]; simpl.
  - injection Hn as ->. by rewrite Hx.
  - destruct (Hbefore 0%nat y acc) as [[s' ->]| ->]; [lia|done| |done].
    simpl. apply (IH n); [done| |done].
    intros m z s Hm Hz. apply (Hbefore (S m)); [lia|done].
Qed.

Lemma order_row_mismatch (bboxes_all : list (list Box))
    (labels : option (list (list string))) (orig_sizes : list (Z * Z))
    (i j : nat) (row_pred : list Z) (row_bboxes : list Box) :
  bboxes_all !! (i + j)%nat = Some row_bboxes →
  length row_pred ≠ length row_bboxes →
  order_row bboxes_all labels orig_sizes i j row_pred = Err AssertionError.
Proof.
  intros Hb Hne. unfold order_row, py_getitem. rewrite Hb. simpl.
  by rewrite bool_decide_eq_false_2.
Qed.

(** With every list in range, validation is the only thing that can
    fail in [order_row]. *)
Lemma order_row_outcome (bboxes_all : list (list Box))
    (labels : option (list (list string))) (orig_sizes : list (Z * Z))
    (i j : nat) (row_pred : list Z) :
  is_Some (bboxes_all !! (i + j)%nat) → is_Some (orig_sizes !! j) →
  (∀ ls, labels = Some ls → is_Some (ls !! (i + j)%nat)) →
  (∃ r, order_row bboxes_all labels orig_sizes i j row_pred = Ok r) ∨
  order_row bboxes_all labels orig_sizes i j row_pred = Err AssertionError.
Proof.
  intros [row_bboxes Hb] [orig_size Hs] Hl.
  unfold order_row, py_getitem. rewrite Hb, Hs. simpl.
  case_bool_decide; simpl; [|by right]. left.
  destruct labels as [ls|]; simpl; [|by eexists].
  destruct (Hl ls eq_refl) as [l ->]. simpl. by eexists.
Qed.

Section decode_lengths.
Context {Pixels Counts Cache Encoded : Type}.
Context (settings : Settings) (processor : @Processor Pixels Counts).
Context (model : @Model Pixels Counts Cache Encoded).

Lemma decode_row_length (logits : list (list Q)) (j : nat) (s s' : StepLists) :
  decode_row processor logits j s = Ok s' →
  length (batch_predictions s') = length (batch_predictions s).
Proof.
  intros (logits_j & predictions_j & pred & _ & _ & _ & Hcase)%decode_row_Ok.
  case_decide.
  - by destruct Hcase as (-> & _).
  - destruct Hcase as (-> & _). by rewrite length_insert.
Qed.

Lemma decode_rows_length (logits : list (list Q))
    (batch_predictions0 : list (list Z)) (done0 : list bool) (s : StepLists) :
  decode_rows processor logits batch_predictions0 done0 = Ok s →
  length (batch_predictions s) = length batch_predictions0.
Proof.
  unfold decode_rows.
  apply (for_each_invariant
           (λ s, length (batch_predictions s) = length batch_predictions0)).
  - intros item s1 s2 Hitem Hs1.
    apply bind_Ok in Hitem as (target & _ & Hitem).
    apply bind_Ok in Hitem as (j & _ & Hitem).
    by rewrite (decode_row_length _ _ _ _ Hitem).
  - done.
Qed.

Lemma decode_step_length (pixels : Pixels) (counts : Counts)
    (st st' : DecodeState) (break : bool) :
  decode_step processor model pixels counts st = Ok (st', break) →
  length (predictions st') = length (predictions st).
Proof.
  unfold decode_step. intros (s & Hs & H)%bind_Ok.
  apply decode_rows_length in Hs.
  by destruct (forallb id (done s)); injection H as <- <-.
Qed.

Lemma decode_while_length (left : nat) (pixels : Pixels) (counts : Counts)
    (st st' : DecodeState) :
  decode_while processor model left pixels counts st = Ok st' →
  length (predictions st') = length (predictions st).
Proof.
  revert st. induction left as [|left IH]; intros st; simpl.
  - by intros [= <-].
  - intros ([st1 break] & Hstep & H)%bind_Ok.
    apply decode_step_length in Hstep. destruct break.
    + injection H as <-. done.
    + apply IH in H. congruence.
Qed.

(** One list of predictions per image of the batch. *)
Lemma decode_batch_length (batch_images : list Image)
    (batch_boxes : list (list Box)) (st : DecodeState) :
  decode_batch settings processor model batch_images batch_boxes = Ok st →
  length (predictions st) = length batch_images.
Proof.
  unfold decode_batch. intros H%decode_while_length.
  by rewrite H; simpl; rewrite length_replicate.
Qed.
End decode_lengths.

Section batches.
Context {Pixels Counts Cache Encoded : Type}.
Context (settings : Settings) (processor : @Processor Pixels Counts).
Context (model : @Model Pixels Counts Cache Encoded).

(** A batch whose decoding completes with a sample whose count of
    predictions is not its count of boxes raises [AssertionError],
    whatever is in [output_order] by then. *)
Lemma run_batch_mismatch (images : list Image) (bboxes_all : list (list Box))
    (labels : option (list (list string))) (batch_size i : nat)
    (output_order : list OrderResult) (st : DecodeState) (j : nat)
    (row_pred : list Z) (row_bboxes : list Box) :
  length images = length bboxes_all →
  (∀ ls, labels = Some ls → length ls = length images) →
  decode_batch settings processor model (slice images i batch_size)
               (slice bboxes_all i batch_size) = Ok st →
  predictions st !! j = Some row_pred →
  bboxes_all !! (i + j)%nat = Some row_bboxes →
  length row_pred ≠ length row_bboxes →
  run_batch settings processor model images bboxes_all labels batch_size i
            output_order = Err AssertionError.
Proof.
  intros Hlen Hlabels Hdecode Hj Hb Hne. unfold run_batch.
  rewrite Hdecode. simpl. unfold assemble_batch.
  pose proof (decode_batch_length _ _ _ _ _ _ Hdecode) as Hpreds.
  assert (j < length (slice images i batch_size))%nat as Hjlt.
  { rewrite <- Hpreds. by eapply lookup_lt_Some. }
  apply (for_each_raises _ AssertionError _ j (j, row_pred)).
  - by rewrite enumerate_lookup, Hj.
  - intros m [m' p] out Hm Hy. rewrite enumerate_lookup in Hy.
    destruct (predictions st !! m) as [p'|] eqn:Hp; simplify_eq/=.
    destruct (order_row_outcome bboxes_all labels
                (size <$> slice images i batch_size) i m' p) as [[r Hr]|Hr].
    + apply lookup_lt_is_Some_2. apply lookup_lt_Some in Hb. lia.
    + apply lookup_lt_is_Some_2. rewrite length_fmap. lia.
    + intros ls ->. apply lookup_lt_is_Some_2. rewrite (Hlabels ls eq_refl).
      apply lookup_lt_Some in Hb. lia.
    + left. rewrite Hr. simpl. by eexists.
    + right. by rewrite Hr.
  - intros out. by rewrite (order_row_mismatch _ _ _ _ _ _ _ Hb Hne).
Qed.

(** C4, amended.  When the decoding of a batch completes with a
    sample whose count of predictions differs from its count of
    boxes, [batch_ordering] raises [AssertionError]: nothing is
    truncated or padded, and no result is returned, also none of the
    batches that completed before. *)
Theorem count_mismatch_aborts (images : list Image)
    (bboxes_all : list (list Box)) (labels : option (list (list string)))
    (before : list nat) (i : nat) (after : list nat)
    (output_order : list OrderResult) (st : DecodeState) (j : nat)
    (row_pred : list Z) (row_bboxes : list Box) :
  let batch_size := Z.to_nat (get_batch_size settings) in
  length images = length bboxes_all →
  check_labels images bboxes_all labels = Ok tt →
  py_range_step (length images) (get_batch_size settings)
    = Ok (before ++ i :: after) →
  for_each (run_batch settings processor model (convert_RGB <$> images)
                      bboxes_all labels batch_size) before []
    = Ok output_order →
  decode_batch settings processor model
               (slice (convert_RGB <$> images) i batch_size)
               (slice bboxes_all i batch_size) = Ok st →
  predictions st !! j = Some row_pred →
  bboxes_all !! (i + j)%nat = Some row_bboxes →
  length row_pred ≠ length row_bboxes →
  batch_ordering settings processor model images bboxes_all labels
    = Err AssertionError ∧
  returned (batch_ordering settings processor model images bboxes_all labels)
    = [].
Proof.
  intros batch_size Hlen Hcheck Hstarts Hbefore Hdecode Hj Hb Hne.
  assert (batch_ordering settings processor model images bboxes_all labels
          = Err AssertionError) as Hraise; [|by rewrite Hraise].
  unfold batch_ordering.
  rewrite bool_decide_eq_true_2 by done. simpl.
  rewrite Hcheck. simpl. rewrite length_fmap, Hstarts. simpl.
  rewrite for_each_app. fold batch_size. rewrite Hbefore. simpl.
  rewrite (run_batch_mismatch _ _ _ _ _ _ st j row_pred row_bboxes); try done.
  - by rewrite length_fmap.
  - intros ls ->. rewrite length_fmap. by apply check_labels_Ok in Hcheck as [? _].
Qed.
End batches.

(** C4, as stated, fails in its second half.  The model answers every
    call with no row of logits, so nothing is predicted.  With one
    sample per batch, the first sample (no boxes) completes and the
    second (one box) fails validation: the call raises, and the result
    of the first batch is not returned. *)
Lemma completed_batches_are_discarded :
  let settings := example_settings 1 256 in
  let processor := example_processor 3 0 in
  let model := example_model [] in
  let images := [example_image 10 20; example_image 30 40] in
  let bboxes_all : list (list Box) := [[]; [[1%Q; 2%Q; 3%Q; 4%Q]]] in
  let first := {| bboxes := []; image_bbox := [0; 0; 10; 20] |} in
  run_batch settings processor model (convert_RGB <$> images) bboxes_all None
            1 0 [] = Ok [first] ∧
  run_batch settings processor model (convert_RGB <$> images) bboxes_all None
            1 1 [first] = Err AssertionError ∧
  batch_ordering settings processor model images bboxes_all None
    = Err AssertionError ∧
  first ∉ returned (batch_ordering settings processor model images bboxes_all None).
Proof.
  intros settings processor model images bboxes_all first.
  assert (batch_ordering settings processor model images bboxes_all None
          = Err AssertionError) as Hraise by (vm_compute; reflexivity).
  split_and!; try (vm_compute; reflexivity).
  rewrite Hraise. apply not_elem_of_nil.
Qed.

Lemma count_mismatch_aborts_witness :
  let settings := example_settings 2 256 in
  let processor := example_processor 3 0 in
  let model := example_model [] in
  let images := [example_image 10 20; example_image 30 40;
                 example_image 50 60; example_image 70 80] in
  let bboxes_all : list (list Box) := [[]; []; []; [[1%Q; 2%Q; 3%Q; 4%Q]]] in
  let labels := Some [[]; []; []; ["Text"]] in
  let completed := [ {| bboxes := []; image_bbox := [0; 0; 10; 20] |};
                     {| bboxes := []; image_bbox := [0; 0; 30; 40] |} ] in
  for_each (run_batch settings processor model (convert_RGB <$> images)
                      bboxes_all labels 2) [0%nat] [] = Ok completed ∧
  batch_ordering settings processor model images bboxes_all labels
    = Err AssertionError ∧
  returned (batch_ordering settings processor model images bboxes_all labels) = [].
Proof.
  intros settings processor model images bboxes_all labels completed.
  split; [vm_compute; reflexivity|].
  eapply (count_mismatch_aborts settings processor model images bboxes_all labels
            [0%nat] 2 [] completed _ 1 [] [[1%Q; 2%Q; 3%Q; 4%Q]]);
    try (vm_compute; reflexivity).
  simpl. lia.
Defined.

(** ** Batch sizes *)

Lemma order_row_shift (bboxes_all : list (list Box))
    (labels : option (list (list string))) (images : list Image)
    (i n j : nat) (row_pred : list Z) :
  (j < n)%nat →
  order_row bboxes_all labels (size <$> slice images i n) i j row_pred =
  order_row bboxes_all labels (size <$> images) 0 (i + j) row_pred.
Proof.
  intros Hj. unfold order_row.
  assert (py_getitem (size <$> slice images i n) j
          = py_getitem (size <$> images) (i + j)) as ->; [|done].
  unfold py_getitem, slice.
  by rewrite !list_lookup_fmap, lookup_take_lt, lookup_drop.
Qed.

Lemma Forall2_decode_exists {A B : Type} (f : A → result B) (l : list A) :
  (∀ x, x ∈ l → ∃ y, f x = Ok y) → ∃ k, Forall2 (λ x y, f x = Ok y) l k.
Proof.
  induction l as [|x l IH]; intros Hl.
  - exists []. constructor.
  - destruct (Hl x) as [y Hy]; [left|].
    destruct IH as [k Hk]; [intros z Hz; apply Hl; by right|].
    exists (y :: k). by constructor.
Qed.

Lemma ceil_div_covers (n s : nat) : (0 < s → n ≤ (n + s - 1) / s * s)%nat.
Proof.
  intros Hs. pose proof (Nat.div_mod (n + s - 1) s) as Hdm.
  pose proof (Nat.mod_upper_bound (n + s - 1) s). nia.
Qed.

Lemma py_range_step_positive (stop : nat) (step : Z) :
  0 < step →
  py_range_step stop step =
  Ok ((λ k, k * Z.to_nat step)%nat
        <$> seq 0 ((stop + Z.to_nat step - 1) / Z.to_nat step)%nat).
Proof.
  intros Hstep. unfold py_range_step.
  rewrite decide_False by lia. by rewrite decide_False by lia.
Qed.

Section batch_sizes.
Context {Pixels Counts Cache Encoded : Type}.
Context (settings : Settings) (processor : @Processor Pixels Counts).
Context (model : @Model Pixels Counts Cache Encoded).
Context (decode_one : Image → list Box → result (list Z)).
Hypothesis per_sample : decodes_per_sample settings processor model decode_one.

Context (images : list Image) (bboxes_all : list (list Box)).
Context (labels : option (list (list string))).
Hypothesis same_length : length images = length bboxes_all.

(** A batch completes exactly when each of its samples does, and it
    appends their results in order. *)
Lemma run_batch_Ok (n i : nat) (output_order results : list OrderResult) :
  run_batch settings processor model images bboxes_all labels n i output_order
    = Ok results ↔
  ∃ rs, results = output_order ++ rs ∧
        length rs = (n `min` (length images - i))%nat ∧
        ∀ j r, rs !! j = Some r → sample_result decode_one images bboxes_all labels (i + j)%nat r.
Proof.
  unfold run_batch.
  assert (length (slice images i n) = length (slice bboxes_all i n)) as Hslices.
  { by rewrite !length_slice, same_length. }
  pose proof (per_sample (slice images i n) (slice bboxes_all i n)) as Hdec.
  split.
  - intros (st & Hst & Hasm)%bind_Ok.
    apply assemble_batch_Ok in Hasm as (rs & -> & Hlen & Hrows).
    pose proof (proj1 (Hdec (predictions st) Hslices)
                      (ex_intro _ st (conj Hst eq_refl))) as Hall.
    pose proof (Forall2_length _ _ _ Hall) as Hzip.
    rewrite length_zip_with, <- Hslices, Nat.min_id, length_slice in Hzip.
    exists rs. split_and!; [done|lia|].
    intros j r Hr.
    destruct (lookup_lt_is_Some_2 (predictions st) j) as [row_pred Hp].
    { apply lookup_lt_Some in Hr. lia. }
    destruct (Hrows j row_pred Hp) as (r' & Hr' & Hok).
    assert (r' = r) as -> by congruence.
    destruct (lookup_lt_is_Some_2 (zip (slice images i n) (slice bboxes_all i n)) j)
      as [[image boxes] Hsample].
    { rewrite (Forall2_length _ _ _ Hall). by eapply lookup_lt_Some. }
    pose proof (Forall2_lookup_lr _ _ _ _ _ _ Hall Hsample Hp) as Hone.
    apply lookup_zip_with_Some in Hsample
      as (image' & boxes' & [= <- <-] & Him & Hbx).
    apply slice_lookup in Him as [Hjn Him].
    apply slice_lookup in Hbx as [_ Hbx].
    exists image, boxes, row_pred. split_and!; try done.
    by rewrite <- (order_row_shift bboxes_all labels images i n j row_pred Hjn).
  - intros (rs & -> & Hlen & Hrs).
    assert (∀ sample, sample ∈ zip (slice images i n) (slice bboxes_all i n) →
              ∃ row_pred, decode_one sample.1 sample.2 = Ok row_pred) as Hdecoded.
    { intros [image boxes] [j Hj]%list_elem_of_lookup.
      apply lookup_zip_with_Some in Hj as (image' & boxes' & [= <- <-] & Him & Hbx).
      apply slice_lookup in Him as [Hjn Him].
      apply slice_lookup in Hbx as [_ Hbx].
      destruct (lookup_lt_is_Some_2 rs j) as [r Hr].
      { rewrite Hlen. apply lookup_lt_Some in Him. lia. }
      destruct (Hrs j r Hr) as (image' & boxes' & row_pred & ? & ? & Hone & _).
      exists row_pred. simpl. congruence. }
    apply Forall2_decode_exists in Hdecoded as [preds Hpreds].
    destruct (proj2 (Hdec preds Hslices) Hpreds) as (st & -> & <-).
    simpl. apply assemble_batch_Ok. exists rs.
    pose proof (Forall2_length _ _ _ Hpreds) as Hzip.
    rewrite length_zip_with, <- Hslices, Nat.min_id, length_slice in Hzip.
    split_and!; [done|lia|].
    intros j row_pred Hp.
    destruct (lookup_lt_is_Some_2 rs j) as [r Hr].
    { apply lookup_lt_Some in Hp. lia. }
    exists r. split; [done|].
    destruct (Hrs j r Hr) as (image & boxes & row_pred' & Him & Hbx & Hone & Hok).
    assert (j < n)%nat as Hjn.
    { apply lookup_lt_Some in Hr. lia. }
    assert (zip (slice images i n) (slice bboxes_all i n) !! j = Some (image, boxes))
      as Hsample.
    { apply lookup_zip_with_Some. exists image, boxes.
      split_and!; [done| |]; by apply slice_lookup. }
    pose proof (Forall2_lookup_lr _ _ _ _ _ _ Hpreds Hsample Hp) as Hone'.
    simpl in Hone'. assert (row_pred' = row_pred) as -> by congruence.
    by rewrite (order_row_shift bboxes_all labels images i n j row_pred Hjn).
Qed.

(** The first [m] batches of size [s] complete exactly when the first
    [m * s] samples do. *)
Lemma run_batches_Ok (s m : nat) (results : list OrderResult) :
  (0 < s)%nat →
  for_each (run_batch settings processor model images bboxes_all labels s)
           ((λ k, k * s)%nat <$> seq 0 m) [] = Ok results ↔
  length results = ((m * s) `min` length images)%nat ∧
  ∀ k r, results !! k = Some r → sample_result decode_one images bboxes_all labels k r.
Proof.
  intros Hs. revert results. induction m as [|m IH]; intros results.
  - simpl. split.
    + intros [= <-]. by split.
    + intros [Hlen _]. by destruct results.
  - rewrite seq_S, fmap_app, for_each_app. simpl. split.
    + intros (out & Hout & Hlast)%bind_Ok.
      apply IH in Hout as [Hlen Hout].
      apply bind_Ok in Hlast as (results' & Hlast & [= <-]).
      apply run_batch_Ok in Hlast as (rs & -> & Hrs_len & Hrs).
      split; [rewrite length_app; lia|].
      intros k r Hk. destruct (decide (k < length out)%nat) as [Hlt|Hge].
      * rewrite lookup_app_l in Hk by done. by apply Hout.
      * rewrite lookup_app_r in Hk by lia.
        pose proof (lookup_lt_Some _ _ _ Hk).
        replace k with (m * s + (k - length out))%nat by lia. by apply Hrs.
    + intros [Hlen Hres].
      apply bind_Ok. exists (take (m * s) results). split.
      * apply IH. split; [rewrite length_take; lia|].
        intros k r [Hk _]%lookup_take_Some. by apply Hres.
      * apply bind_Ok. exists results. split; [|done].
        apply run_batch_Ok. exists (drop (m * s) results). split_and!.
        -- by rewrite take_drop.
        -- rewrite length_drop. lia.
        -- intros j r Hj. rewrite lookup_drop in Hj. by apply Hres.
Qed.
End batch_sizes.

Section batch_ordering_facts.
Context {Pixels Counts Cache Encoded : Type}.
Context (processor : @Processor Pixels Counts).
Context (model : @Model Pixels Counts Cache Encoded).
Context (decode_one : Image → list Box → result (list Z)).

Lemma decodes_per_sample_max_boxes (settings1 settings2 : Settings) :
  ORDER_MAX_BOXES settings1 = ORDER_MAX_BOXES settings2 →
  decodes_per_sample settings1 processor model decode_one →
  decodes_per_sample settings2 processor model decode_one.
Proof.
  intros Hmax H batch_images batch_boxes batch_predictions Hlen.
  rewrite <- (H batch_images batch_boxes batch_predictions Hlen).
  unfold decode_batch. by rewrite Hmax.
Qed.

(** With a positive batch size, the call completes exactly when the
    checks pass and every sample completes by itself, and it returns
    the results of the samples in the submitted order. *)
Lemma batch_ordering_Ok (settings : Settings) (images : list Image)
    (bboxes_all : list (list Box)) (labels : option (list (list string)))
    (results : list OrderResult) :
  0 < get_batch_size settings →
  decodes_per_sample settings processor model decode_one →
  batch_ordering settings processor model images bboxes_all labels = Ok results ↔
  length images = length bboxes_all ∧
  check_labels images bboxes_all labels = Ok tt ∧
  length results = length images ∧
  ∀ k r, results !! k = Some r →
    sample_result decode_one (convert_RGB <$> images) bboxes_all labels k r.
Proof.
  intros Hsize Hper. unfold batch_ordering.
  rewrite (py_range_step_positive _ _ Hsize).
  set (s := Z.to_nat (get_batch_size settings)).
  assert (0 < s)%nat as Hs by (unfold s; lia).
  set (m := ((length (convert_RGB <$> images) + s - 1) / s)%nat).
  pose proof (ceil_div_covers (length (convert_RGB <$> images)) s Hs) as Hcover.
  fold m in Hcover. rewrite length_fmap in Hcover.
  split.
  - intros H. apply bind_Ok in H as ([] & Hlen & H).
    unfold py_assert in Hlen. case_bool_decide as Hsame; [clear Hlen|done].
    apply bind_Ok in H as ([] & Hcheck & H). simpl in H.
    assert (length (convert_RGB <$> images) = length bboxes_all) as Hsame'
      by (by rewrite length_fmap).
    apply (run_batches_Ok settings processor model decode_one Hper
             (convert_RGB <$> images) bboxes_all labels Hsame' s m results Hs)
      in H as [Hres_len Hres].
    rewrite length_fmap in Hres_len. split_and!; [done|done|lia|done].
  - intros (Hsame & Hcheck & Hlen & Hres).
    rewrite bool_decide_eq_true_2 by done. simpl. rewrite Hcheck. simpl.
    assert (length (convert_RGB <$> images) = length bboxes_all) as Hsame'
      by (by rewrite length_fmap).
    apply (run_batches_Ok settings processor model decode_one Hper
             (convert_RGB <$> images) bboxes_all labels Hsame' s m results Hs).
    split; [rewrite length_fmap; lia|done].
Qed.
End batch_ordering_facts.

Lemma batch_ordering_Ok_same_results {Pixels Counts Cache Encoded : Type}
    (settings1 settings2 : Settings) (processor : @Processor Pixels Counts)
    (model : @Model Pixels Counts Cache Encoded)
    (decode_one : Image → list Box → result (list Z))
    (images : list Image) (bboxes_all : list (list Box))
    (labels : option (list (list string))) (results : list OrderResult) :
  0 < get_batch_size settings1 →
  0 < get_batch_size settings2 →
  ORDER_MAX_BOXES settings1 = ORDER_MAX_BOXES settings2 →
  decodes_per_sample settings1 processor model decode_one →
  batch_ordering settings1 processor model images bboxes_all labels = Ok results ↔
  batch_ordering settings2 processor model images bboxes_all labels = Ok results.
Proof.
  intros Hsize1 Hsize2 Hmax Hper1.
  pose proof (decodes_per_sample_max_boxes _ _ _ _ _ Hmax Hper1) as Hper2.
  rewrite (batch_ordering_Ok _ _ _ settings1) by done.
  by rewrite (batch_ordering_Ok _ _ _ settings2) by done.
Qed.

(** C8.  With positive batch sizes and a decoding that acts on each
    sample by itself, the call returns a list of results under one
    batch size exactly when it returns that list under the other: one
    result per sample, in the submitted order, each the result of its
    sample taken by itself. *)
Theorem batch_boundary_transparency {Pixels Counts Cache Encoded : Type}
    (settings1 settings2 : Settings) (processor : @Processor Pixels Counts)
    (model : @Model Pixels Counts Cache Encoded)
    (decode_one : Image → list Box → result (list Z))
    (images : list Image) (bboxes_all : list (list Box))
    (labels : option (list (list string))) (results : list OrderResult) :
  0 < get_batch_size settings1 →
  0 < get_batch_size settings2 →
  ORDER_MAX_BOXES settings1 = ORDER_MAX_BOXES settings2 →
  decodes_per_sample settings1 processor model decode_one →
  (batch_ordering settings1 processor model images bboxes_all labels = Ok results ↔
   batch_ordering settings2 processor model images bboxes_all labels = Ok results) ∧
  (batch_ordering settings1 processor model images bboxes_all labels = Ok results →
   length results = length images ∧
   ∀ k r, results !! k = Some r →
     sample_result decode_one (convert_RGB <$> images) bboxes_all labels k r).
Proof.
  intros Hsize1 Hsize2 Hmax Hper1. split.
  - by apply (batch_ordering_Ok_same_results _ _ _ _ decode_one).
  - intros Hok. apply (batch_ordering_Ok _ _ decode_one) in Hok; [|done|done].
    tauto.
Qed.

(** With no decoding step allowed the decoding acts per sample: every
    sample gets the empty list of predictions. *)
Lemma decodes_per_sample_no_step {Pixels Counts Cache Encoded : Type}
    (settings : Settings) (processor : @Processor Pixels Counts)
    (model : @Model Pixels Counts Cache Encoded) :
  ORDER_MAX_BOXES settings ≤ 0 →
  decodes_per_sample settings processor model (λ _ _, Ok []).
Proof.
  intros Hmax batch_images batch_boxes batch_predictions Hlen.
  unfold decode_batch.
  replace (Z.to_nat (ORDER_MAX_BOXES settings)) with 0%nat by lia. simpl.
  assert (∀ (samples : list (Image * list Box)) (preds : list (list Z)),
            replicate (length samples) [] = preds ↔
            Forall2 (λ _ row_pred, Ok [] = Ok row_pred) samples preds) as Hrep.
  { induction samples as [|x samples IH]; intros preds; simpl.
    - split; [intros <-; constructor|by intros ->%Forall2_nil_inv_l].
    - split.
      + intros <-. constructor; [done|]. by apply IH.
      + intros (p & preds' & [= <-] & Hrest & ->)%Forall2_cons_inv_l.
        f_equal. by apply IH. }
  rewrite <- Hrep, length_zip_with, <- Hlen, Nat.min_id. split.
  - by intros (st & [= <-] & <-).
  - intros <-. by eexists.
Qed.

Lemma batch_boundary_transparency_witness :
  let processor := example_processor 3 0 in
  let model := example_model [[1%Q; 0%Q; 0%Q; 0%Q]] in
  let images := (λ k, example_image (100 + Z.of_nat k) 50) <$> seq 0 10 in
  let bboxes_all : list (list Box) := replicate 10 [] in
  let results :=
    (λ k, {| bboxes := []; image_bbox := [0; 0; 100 + Z.of_nat k; 50] |})
      <$> seq 0 10 in
  batch_ordering (example_settings 4 0) processor model images bboxes_all None
    = Ok results ∧
  batch_ordering (example_settings 10 0) processor model images bboxes_all None
    = Ok results.
Proof.
  intros processor model images bboxes_all results.
  assert (batch_ordering (example_settings 4 0) processor model images
                         bboxes_all None = Ok results) as H4 by reflexivity.
  split; [exact H4|].
  refine (proj1 (proj1 (batch_boundary_transparency
                   (example_settings 4 0) (example_settings 10 0) processor model
                   (λ _ _, Ok []) images bboxes_all None results
                   _ _ _ _)) H4).
  - reflexivity.
  - reflexivity.
  - reflexivity.
  - apply decodes_per_sample_no_step. simpl. lia.
Defined.

(** ** The loop over the samples as written *)

Section as_written.
Context {Pixels Counts Cache Encoded : Type}.
Context (settings : Settings) (processor : @Processor Pixels Counts).
Context (model : @Model Pixels Counts Cache Encoded).

Lemma decode_batch_TypeError (batch_images : list Image)
    (batch_boxes : list (list Box)) :
  0 < ORDER_MAX_BOXES settings →
  first_logits processor model batch_images batch_boxes ≠ [] →
  decode_batch settings processor model batch_images batch_boxes = Err TypeError.
Proof.
  intros Hmax Hrows. unfold decode_batch.
  destruct (Z.to_nat (ORDER_MAX_BOXES settings)) as [|left] eqn:Hleft; [lia|].
  simpl. unfold decode_step. simpl.
  by rewrite decode_rows_TypeError.
Qed.

Lemma run_batch_TypeError (images : list Image) (bboxes_all : list (list Box))
    (labels : option (list (list string))) (batch_size i : nat)
    (output_order : list OrderResult) :
  0 < ORDER_MAX_BOXES settings →
  (∀ batch_images batch_boxes, first_logits processor model batch_images batch_boxes ≠ []) →
  run_batch settings processor model images bboxes_all labels batch_size i
            output_order = Err TypeError.
Proof.
  intros Hmax Hrows. unfold run_batch.
  by rewrite decode_batch_TypeError.
Qed.

(** Whenever the model answers with at least one row, a call with at
    least one image raises [TypeError] in its first batch. *)
Lemma batch_ordering_TypeError (images : list Image)
    (bboxes_all : list (list Box)) (labels : option (list (list string))) :
  images ≠ [] →
  length images = length bboxes_all →
  check_labels images bboxes_all labels = Ok tt →
  0 < get_batch_size settings →
  0 < ORDER_MAX_BOXES settings →
  (∀ batch_images batch_boxes, first_logits processor model batch_images batch_boxes ≠ []) →
  batch_ordering settings processor model images bboxes_all labels
    = Err TypeError.
Proof.
  intros Himages Hlen Hcheck Hsize Hmax Hrows. unfold batch_ordering.
  rewrite bool_decide_eq_true_2 by done. simpl. rewrite Hcheck. simpl.
  rewrite (py_range_step_positive _ _ Hsize). rewrite length_fmap.
  set (s := Z.to_nat (get_batch_size settings)).
  assert (0 < s)%nat as Hs by (unfold s; lia).
  pose proof (ceil_div_covers (length images) s Hs) as Hcover.
  destruct ((length images + s - 1) / s)%nat as [|m].
  - destruct images; [done|]. simpl in Hcover. lia.
  - change (seq 0 (S m)) with (0%nat :: seq 1 m).
    rewrite bind_Ok_l, fmap_cons, for_each_cons.
    by rewrite run_batch_TypeError.
Qed.

(** With one row of logits per image, the decoding as written acts
    per sample: it raises for every sample. *)
Lemma decodes_per_sample_as_written :
  0 < ORDER_MAX_BOXES settings →
  (∀ batch_images batch_boxes,
     length (first_logits processor model batch_images batch_boxes) = length batch_images) →
  decodes_per_sample settings processor model (λ _ _, Err TypeError).
Proof.
  intros Hmax Hrows batch_images batch_boxes batch_predictions Hlen.
  destruct batch_images as [|image batch_images].
  - destruct batch_boxes; [|done]. simpl.
    pose proof (Hrows [] []) as Hnil. apply nil_length_inv in Hnil.
    unfold decode_batch.
    destruct (Z.to_nat (ORDER_MAX_BOXES settings)) as [|left] eqn:Hleft; [lia|].
    simpl. unfold decode_step. simpl. fold (first_logits processor model [] []).
    rewrite Hnil, decode_rows_nil. simpl. split.
    + intros (st & [= <-] & <-). constructor.
    + intros ->%Forall2_nil_inv_l. by eexists.
  - destruct batch_boxes as [|boxes batch_boxes]; [done|].
    rewrite decode_batch_TypeError; [|done|].
    + split; [by intros (st & [=] & _)|].
      by intros (? & ? & [=] & _)%Forall2_cons_inv_l.
    + intros Hnil. pose proof (Hrows (image :: batch_images) (boxes :: batch_boxes)).
      by rewrite Hnil in *.
Qed.
End as_written.

(** The code as written, with a model that returns one row of logits
    per image: the batch size does not change what the call returns. *)
Corollary batch_boundary_transparency_as_written
    {Pixels Counts Cache Encoded : Type}
    (settings1 settings2 : Settings) (processor : @Processor Pixels Counts)
    (model : @Model Pixels Counts Cache Encoded)
    (images : list Image) (bboxes_all : list (list Box))
    (labels : option (list (list string))) (results : list OrderResult) :
  0 < get_batch_size settings1 →
  0 < get_batch_size settings2 →
  ORDER_MAX_BOXES settings1 = ORDER_MAX_BOXES settings2 →
  (∀ batch_images batch_boxes,
     length (first_logits processor model batch_images batch_boxes)
     = length batch_images) →
  batch_ordering settings1 processor model images bboxes_all labels = Ok results ↔
  batch_ordering settings2 processor model images bboxes_all labels = Ok results.
Proof.
  intros Hsize1 Hsize2 Hmax Hrows.
  destruct (decide (0 < ORDER_MAX_BOXES settings1)) as [Hpos|Hnone].
  - apply (batch_ordering_Ok_same_results settings1 settings2 processor model
             (λ _ _, Err TypeError)); try done.
    by apply decodes_per_sample_as_written.
  - apply (batch_ordering_Ok_same_results settings1 settings2 processor model
             (λ _ _, Ok [])); try done.
    apply decodes_per_sample_no_step. lia.
Qed.

(** * Further properties *)

(** ** [rank_elements] on arbitrary lists *)

Lemma count_filter_Forall2 {A : Type} (P Q : A → Prop)
    `{!∀ x, Decision (P x)} `{!∀ x, Decision (Q x)} (a b : list A) :
  Forall2 (λ x x', P x ↔ Q x') a b →
  length (filter P a) = length (filter Q b).
Proof.
  induction 1 as [|x x' a b Hx _ IH]; [done|].
  rewrite !filter_cons. repeat case_decide; simpl; try lia; tauto.
Qed.

Lemma stable_rank_order_iso (a b : list Z) (i : nat) (v v' : Z) :
  length a = length b →
  (∀ i j x y x' y',
     a !! i = Some x → a !! j = Some y → b !! i = Some x' → b !! j = Some y' →
     (x < y ↔ x' < y')) →
  a !! i = Some v → b !! i = Some v' →
  stable_rank a i v = stable_rank b i v'.
Proof.
  intros Hlen Hiso Hv Hv'. unfold stable_rank. f_equal.
  - apply count_filter_Forall2, Forall2_same_length_lookup. split; [done|].
    intros k x x' Hx Hx'. exact (Hiso k i x v x' v' Hx Hv Hx' Hv').
  - apply count_filter_Forall2, Forall2_same_length_lookup. split.
    + by rewrite !length_take, Hlen.
    + intros k x x' [Hx _]%lookup_take_Some [Hx' _]%lookup_take_Some.
      pose proof (Hiso k i x v x' v' Hx Hv Hx' Hv').
      pose proof (Hiso i k v x v' x' Hv Hx Hv' Hx'). lia.
Qed.

Lemma rank_elements_order_iso (a b : list Z) :
  length a = length b →
  (∀ i j x y x' y',
     a !! i = Some x → a !! j = Some y → b !! i = Some x' → b !! j = Some y' →
     (x < y ↔ x' < y')) →
  rank_elements a = rank_elements b.
Proof.
  intros Hlen Hiso. apply list_eq. intros i.
  destruct (a !! i) as [v|] eqn:Hv.
  - destruct (lookup_lt_is_Some_2 b i) as [v' Hv'].
    { rewrite <- Hlen. by eapply lookup_lt_Some. }
    rewrite (rank_elements_lookup a i v Hv), (rank_elements_lookup b i v' Hv').
    by rewrite (stable_rank_order_iso a b i v v' Hlen Hiso Hv Hv').
  - apply lookup_ge_None in Hv.
    rewrite !lookup_ge_None_2; [done| |]; rewrite length_rank_elements; lia.
Qed.

Lemma rank_elements_shift (h : Z) (arr : list Z) :
  rank_elements ((λ p, p - h) <$> arr) = rank_elements arr.
Proof.
  apply rank_elements_order_iso; [by rewrite length_fmap|].
  intros i j x y x' y' Hx Hy Hx' Hy'.
  apply list_lookup_fmap_Some in Hx as (? & -> & Hx).
  apply list_lookup_fmap_Some in Hy as (? & -> & Hy).
  simplify_eq. lia.
Qed.

(** Two arrangements of 0 .. N-1 are equal as soon as one is monotone
    in the other. *)
Lemma permutation_monotone_eq (f g : list Z) :
  f ≡ₚ iota (length f) → g ≡ₚ iota (length g) → length f = length g →
  (∀ a b fa fb ga gb,
     f !! a = Some fa → f !! b = Some fb → g !! a = Some ga → g !! b = Some gb →
     fa < fb → ga < gb) →
  f = g.
Proof.
  intros Hf Hg Hlen Hmono.
  rewrite <- (rank_elements_of_permutation f Hf), <- (rank_elements_of_permutation g Hg).
  apply rank_elements_order_iso; [done|].
  intros a b fa fb ga gb Hfa Hfb Hga Hgb. split; [by eapply Hmono|].
  intros Hlt. destruct (Z.lt_trichotomy fa fb) as [?|[->|Hgt]]; [done| |].
  - assert (NoDup f) as Hnd by (rewrite Hf; apply NoDup_iota).
    assert (a = b) as -> by (eapply NoDup_lookup; eauto).
    simplify_eq. lia.
  - pose proof (Hmono b a fb fa gb ga Hfb Hfa Hgb Hga Hgt). lia.
Qed.

(** X5.  The ranks depend on the comparisons between the entries only:
    two lists of the same length whose entries compare the same way at
    every pair of positions get the same ranks. *)
Theorem rank_elements_order_invariant (a b : list Z) :
  length a = length b →
  (∀ i j x y x' y',
     a !! i = Some x → a !! j = Some y → b !! i = Some x' → b !! j = Some y' →
     (x < y ↔ x' < y')) →
  rank_elements a = rank_elements b.
Proof. apply rank_elements_order_iso. Qed.

Lemma rank_elements_order_invariant_witness :
  length [40; 10; 40; 25] = length [7; -3; 7; 0] ∧
  rank_elements [40; 10; 40; 25] = [2; 0; 3; 1] ∧
  rank_elements [40; 10; 40; 25] = rank_elements [7; -3; 7; 0].
Proof.
  split; [reflexivity|]. split; [reflexivity|].
  apply (rank_elements_order_invariant [40; 10; 40; 25] [7; -3; 7; 0]);
    [reflexivity|].
  intros [|[|[|[|?]]]] [|[|[|[|?]]]] x y x' y' Hx Hy Hx' Hy';
    simplify_eq/=; lia.
Defined.

(** X2.  Whatever the input, with repeats or gaps, the ranks are the
    numbers 0 .. N-1, each once. *)
Theorem rank_elements_is_permutation (arr : list Z) :
  rank_elements arr ≡ₚ iota (length arr) ∧
  length (rank_elements arr) = length arr ∧
  NoDup (rank_elements arr) ∧
  ∀ r, r ∈ rank_elements arr ↔ 0 ≤ r < Z.of_nat (length arr).
Proof.
  pose proof (rank_elements_permutation arr) as Hperm. split_and!.
  - done.
  - apply length_rank_elements.
  - rewrite Hperm. apply NoDup_iota.
  - intros r. by rewrite Hperm, elem_of_iota.
Qed.

(** X3.  The ranks follow the values: the entry at position [i] gets a
    smaller rank than the entry at position [j] exactly when its value
    is smaller, or the values are equal and [i] comes first. *)
Theorem rank_elements_order (arr : list Z) (i j : nat) (x y ri rj : Z) :
  arr !! i = Some x → arr !! j = Some y →
  rank_elements arr !! i = Some ri → rank_elements arr !! j = Some rj →
  (ri < rj ↔ x < y ∨ (x = y ∧ (i < j)%nat)).
Proof.
  intros Hx Hy Hri Hrj.
  destruct (sorted_enumerate_place arr i x Hx) as (ki & Hki & Hri').
  destruct (sorted_enumerate_place arr j y Hy) as (kj & Hkj & Hrj').
  assert (ri = Z.of_nat ki) as -> by congruence.
  assert (rj = Z.of_nat kj) as -> by congruence.
  pose proof (sorted_stable snd fst (enumerate arr) (enumerate_increasing arr)) as Hs.
  change (x < y ∨ x = y ∧ (i < j)%nat) with (key_then_tie snd fst (i, x) (j, y)).
  split.
  - intros Hlt.
    apply (strictly_sorted_lookup_lt _ _ ki kj _ _ Hs Hki Hkj). lia.
  - intros Hbefore.
    enough (ki < kj)%nat by lia.
    by apply (strictly_sorted_lookup_order (key_then_tie snd fst) _ ki kj (i, x) (j, y)
                (key_then_tie_irrefl snd fst) (key_then_tie_asym snd fst) Hs).
Qed.

Lemma rank_elements_order_witness :
  rank_elements [5; 3; 5; 1] = [2; 1; 3; 0] ∧
  (2 < 3 ↔ 5 < 5 ∨ (5 = 5 ∧ (0 < 2)%nat)).
Proof.
  split; [reflexivity|].
  exact (rank_elements_order [5; 3; 5; 1] 0 2 5 5 2 3
           eq_refl eq_refl eq_refl eq_refl).
Defined.

(** X4.  Ranking twice is ranking once. *)
Theorem rank_elements_idempotent (arr : list Z) :
  rank_elements (rank_elements arr) = rank_elements arr.
Proof.
  apply rank_elements_of_permutation.
  rewrite length_rank_elements. apply rank_elements_permutation.
Qed.

(** ** The offset of line 91 and the structural reordering *)

(** X6.  The predictions are stored as [pred - box_size["height"]]
    (line 91), and the offset has no effect on the outcome: validation
    and assembly of a sample give the same result, or raise the same
    exception, for any offset subtracted from all its predictions. *)
Theorem order_row_offset_irrelevant (bboxes_all : list (list Box))
    (labels : option (list (list string))) (orig_sizes : list (Z * Z))
    (i j : nat) (height : Z) (tokens : list Z) :
  order_row bboxes_all labels orig_sizes i j ((λ pred, pred - height) <$> tokens) =
  order_row bboxes_all labels orig_sizes i j tokens.
Proof.
  unfold order_row. by rewrite length_fmap, rank_elements_shift.
Qed.

Section reorder_again.
Context (row_bboxes : list Box) (row_label_list : list string) (ranks : list Z).
Hypothesis labels_length : length row_label_list = length row_bboxes.
Hypothesis ranks_length : length ranks = length row_bboxes.

Lemma reorder_group_order (a b : nat) (la lb : string) (fa fb : Z) :
  row_label_list !! a = Some la → row_label_list !! b = Some lb →
  (reorder row_bboxes row_label_list ranks).2 !! a = Some fa →
  (reorder row_bboxes row_label_list ranks).2 !! b = Some fb →
  fa < fb → group_of la ≤ group_of lb.
Proof.
  intros Hla Hlb Hfa Hfb Hlt.
  destruct (decide (group_of la ≤ group_of lb)) as [|Hgt]; [done|].
  destruct (lookup_lt_is_Some_2 ranks a) as [ra Hra].
  { rewrite ranks_length, <- labels_length. by eapply lookup_lt_Some. }
  destruct (lookup_lt_is_Some_2 ranks b) as [rb Hrb].
  { rewrite ranks_length, <- labels_length. by eapply lookup_lt_Some. }
  assert (fb < fa); [|lia].
  apply (reorder_ranks_order row_bboxes row_label_list ranks
           labels_length ranks_length b a lb la rb ra fb fa
           Hlb Hla Hrb Hra Hfb Hfa).
  left. lia.
Qed.

Lemma reorder_fixes_its_ranks :
  (reorder row_bboxes row_label_list
           (reorder row_bboxes row_label_list ranks).2).2
  = (reorder row_bboxes row_label_list ranks).2.
Proof.
  set (ranks' := (reorder row_bboxes row_label_list ranks).2).
  assert (length ranks' = length row_bboxes) as Hlen'
    by (by apply length_reorder_ranks).
  symmetry. apply permutation_monotone_eq.
  - rewrite Hlen'. by apply reorder_ranks_permutation.
  - rewrite length_reorder_ranks by done. by apply reorder_ranks_permutation.
  - by rewrite length_reorder_ranks.
  - intros a b fa fb ga gb Hfa Hfb Hga Hgb Hlt.
    destruct (lookup_lt_is_Some_2 row_label_list a) as [la Hla].
    { rewrite labels_length, <- Hlen'. by eapply lookup_lt_Some. }
    destruct (lookup_lt_is_Some_2 row_label_list b) as [lb Hlb].
    { rewrite labels_length, <- Hlen'. by eapply lookup_lt_Some. }
    pose proof (reorder_group_order a b la lb fa fb Hla Hlb Hfa Hfb Hlt).
    apply (reorder_ranks_order row_bboxes row_label_list ranks'
             labels_length Hlen' a b la lb fa fb ga gb Hla Hlb Hfa Hfb Hga Hgb).
    lia.
Qed.

Lemma reorder_body_only :
  Forall (λ label, label ≠ "Page-header" ∧ label ≠ "Page-footer") row_label_list →
  ranks ≡ₚ iota (length row_bboxes) →
  (reorder row_bboxes row_label_list ranks).2 = ranks.
Proof.
  intros Hbody Hperm. symmetry. apply permutation_monotone_eq.
  - by rewrite ranks_length.
  - rewrite length_reorder_ranks by done. by apply reorder_ranks_permutation.
  - by rewrite length_reorder_ranks.
  - intros a b ra rb fa fb Hra Hrb Hfa Hfb Hlt.
    destruct (lookup_lt_is_Some_2 row_label_list a) as [la Hla].
    { rewrite labels_length, <- ranks_length. by eapply lookup_lt_Some. }
    destruct (lookup_lt_is_Some_2 row_label_list b) as [lb Hlb].
    { rewrite labels_length, <- ranks_length. by eapply lookup_lt_Some. }
    apply (reorder_ranks_order row_bboxes row_label_list ranks
             labels_length ranks_length a b la lb ra rb fa fb
             Hla Hlb Hra Hrb Hfa Hfb).
    right. split; [|done].
    rewrite Forall_lookup in Hbody.
    assert (group_of la = 1) as ->
      by (by apply group_of_body, not_header_footer, (Hbody a la Hla)).
    symmetry. by apply group_of_body, not_header_footer, (Hbody b lb Hlb).
Qed.

Lemma reorder_body_identity :
  Forall (λ label, label ≠ "Page-header" ∧ label ≠ "Page-footer") row_label_list →
  ranks ≡ₚ iota (length row_bboxes) →
  reorder row_bboxes row_label_list ranks = (row_bboxes, ranks).
Proof.
  intros Hbody Hperm. apply injective_projections; simpl.
  - by apply reorder_boxes.
  - by apply reorder_body_only.
Qed.
End reorder_again.

(** X7.  The structural reordering is idempotent: applied to the ranks
    it produced, with the same boxes and labels, it changes nothing. *)
Theorem reorder_idempotent (row_bboxes : list Box) (row_label_list : list string)
    (ranks : list Z) :
  length row_label_list = length row_bboxes →
  length ranks = length row_bboxes →
  reorder row_bboxes row_label_list (reorder row_bboxes row_label_list ranks).2
  = reorder row_bboxes row_label_list ranks.
Proof.
  intros Hl Hr.
  assert (length (reorder row_bboxes row_label_list ranks).2 = length row_bboxes)
    as Hr' by (by apply length_reorder_ranks).
  apply injective_projections.
  - by rewrite !reorder_boxes.
  - by apply reorder_fixes_its_ranks.
Qed.

Lemma reorder_idempotent_witness :
  let boxes : list Box := [[1%Q]; [2%Q]; [3%Q]; [4%Q]] in
  let labels := ["Text"; "Page-footer"; "Page-header"; "Text"] in
  (reorder boxes labels [0; 1; 2; 3]).2 = [1; 3; 0; 2] ∧
  reorder boxes labels (reorder boxes labels [0; 1; 2; 3]).2
  = reorder boxes labels [0; 1; 2; 3].
Proof.
  split; [reflexivity|].
  by apply (reorder_idempotent [[1%Q]; [2%Q]; [3%Q]; [4%Q]]
              ["Text"; "Page-footer"; "Page-header"; "Text"] [0; 1; 2; 3]).
Defined.

(** X8.  On a page with neither a [Page-header] nor a [Page-footer]
    label the structural reordering returns boxes and ranks as they
    were, for ranks that are an arrangement of 0 .. N-1 (as the ranks
    of [rank_elements] always are). *)
Theorem reorder_without_header_footer (row_bboxes : list Box)
    (row_label_list : list string) (ranks : list Z) :
  length row_label_list = length row_bboxes →
  length ranks = length row_bboxes →
  Forall (λ label, label ≠ "Page-header" ∧ label ≠ "Page-footer") row_label_list →
  ranks ≡ₚ iota (length row_bboxes) →
  reorder row_bboxes row_label_list ranks = (row_bboxes, ranks).
Proof. apply reorder_body_identity. Qed.

Lemma reorder_without_header_footer_witness :
  let boxes : list Box := [[1%Q]; [2%Q]; [3%Q]] in
  reorder boxes ["Text"; "Table"; "Picture"] [2; 0; 1] = (boxes, [2; 0; 1]).
Proof.
  apply (reorder_without_header_footer [[1%Q]; [2%Q]; [3%Q]]
           ["Text"; "Table"; "Picture"] [2; 0; 1]); [done|done| |].
  - repeat constructor; done.
  - apply (Permutation_trans (l' := [0; 2; 1])); [apply perm_swap|].
    apply perm_skip, perm_swap.
Defined.

(** X20.  Labels without a [Page-header] and without a [Page-footer]
    change nothing: for such a sample, validation and assembly give the
    same result, or raise the same exception, as a call without
    labels. *)
Theorem order_row_plain_labels (bboxes_all : list (list Box))
    (labels : list (list string)) (orig_sizes : list (Z * Z)) (i j : nat)
    (row_pred : list Z) (row_label_list : list string) :
  labels !! (i + j)%nat = Some row_label_list →
  (∀ row_bboxes, bboxes_all !! (i + j)%nat = Some row_bboxes →
     length row_label_list = length row_bboxes) →
  Forall (λ label, label ≠ "Page-header" ∧ label ≠ "Page-footer") row_label_list →
  order_row bboxes_all (Some labels) orig_sizes i j row_pred =
  order_row bboxes_all None orig_sizes i j row_pred.
Proof.
  intros Hl Hlen Hbody. unfold order_row, py_getitem. rewrite Hl.
  destruct (bboxes_all !! (i + j)%nat) as [row_bboxes|] eqn:Hb; [|done].
  cbn -[reorder rank_elements].
  unfold py_assert. case_bool_decide as Hcount; [|done].
  cbn -[reorder rank_elements].
  destruct (orig_sizes !! j) as [orig_size|]; [|done].
  cbn -[reorder rank_elements].
  rewrite reorder_body_identity; [done|by apply Hlen| |done|].
  - by rewrite length_rank_elements.
  - rewrite <- Hcount. apply rank_elements_permutation.
Qed.

Lemma order_row_plain_labels_witness :
  let bboxes_all : list (list Box) :=
    [[[1%Q; 1%Q; 10%Q; 20%Q]; [2%Q; 2%Q; 10%Q; 20%Q]; [3%Q; 3%Q; 10%Q; 20%Q]]] in
  order_row bboxes_all (Some [["Text"; "Table"; "Picture"]]) [(640, 480)] 0 0
            [9; 2; 5]
  = order_row bboxes_all None [(640, 480)] 0 0 [9; 2; 5] ∧
  order_row bboxes_all None [(640, 480)] 0 0 [9; 2; 5]
  = Ok {| bboxes := [ {| bbox := [1%Q; 1%Q; 10%Q; 20%Q]; position := 2 |};
                      {| bbox := [2%Q; 2%Q; 10%Q; 20%Q]; position := 0 |};
                      {| bbox := [3%Q; 3%Q; 10%Q; 20%Q]; position := 1 |} ];
          image_bbox := [0; 0; 640; 480] |}.
Proof.
  intros bboxes_all. split; [|reflexivity].
  apply (order_row_plain_labels bboxes_all [["Text"; "Table"; "Picture"]]
           [(640, 480)] 0 0 [9; 2; 5] ["Text"; "Table"; "Picture"]).
  - reflexivity.
  - by intros row_bboxes [= <-].
  - repeat constructor; done.
Defined.

(** ** The batch size and the batches *)

(** X1.  Without [ORDER_BATCH_SIZE] the batch size is 32 on the device
    "cuda" and 4 on every other device, "mps" included; it is positive
    in both cases. *)
Theorem get_batch_size_default (settings : Settings) :
  ORDER_BATCH_SIZE settings = None →
  get_batch_size settings =
    (if decide (TORCH_DEVICE_MODEL settings = "cuda") then 32 else 4) ∧
  0 < get_batch_size settings.
Proof.
  intros Hnone. unfold get_batch_size. rewrite Hnone.
  case_decide as Hcuda.
  - rewrite Hcuda. simpl. lia.
  - apply String.eqb_neq in Hcuda. rewrite Hcuda.
    destruct (String.eqb _ "mps"); lia.
Qed.

Lemma get_batch_size_default_witness :
  let settings := {| ORDER_BATCH_SIZE := None; TORCH_DEVICE_MODEL := "cuda";
                     ORDER_MAX_BOXES := 256 |} in
  get_batch_size settings = 32 ∧ 0 < get_batch_size settings.
Proof.
  exact (get_batch_size_default
           {| ORDER_BATCH_SIZE := None; TORCH_DEVICE_MODEL := "cuda";
              ORDER_MAX_BOXES := 256 |} eq_refl).
Defined.

Lemma concat_slices {A : Type} (l : list A) (s m : nat) :
  concat ((λ i, slice l i s) <$> ((λ k, k * s)%nat <$> seq 0 m)) = take (m * s) l.
Proof.
  induction m as [|m IH]; [done|].
  rewrite seq_S, !fmap_app, concat_app, IH. simpl.
  rewrite app_nil_r. unfold slice.
  rewrite take_take_drop. f_equal. lia.
Qed.

Lemma last_start_inside (n s k : nat) :
  (0 < s → k < (n + s - 1) / s → k * s < n)%nat.
Proof.
  intros Hs Hk.
  pose proof (Nat.Div0.mul_div_le (n + s - 1) s). nia.
Qed.

(** X11.  For a positive batch size the batches of lines 46-48 cut the
    input into consecutive pieces: put one after the other they give the
    input back, and each holds at least one and at most [batch_size]
    samples. *)
Theorem batches_partition {A : Type} (l : list A) (batch_size : Z)
    (starts : list nat) :
  0 < batch_size →
  py_range_step (length l) batch_size = Ok starts →
  concat ((λ i, slice l i (Z.to_nat batch_size)) <$> starts) = l ∧
  Forall (λ i, (0 < length (slice l i (Z.to_nat batch_size))
                  ≤ Z.to_nat batch_size)%nat) starts.
Proof.
  intros Hpos Hstarts.
  rewrite py_range_step_positive in Hstarts by done.
  injection Hstarts as <-.
  set (s := Z.to_nat batch_size). assert (0 < s)%nat by lia.
  split.
  - rewrite concat_slices. apply take_ge. by apply ceil_div_covers.
  - apply Forall_fmap, Forall_seq. intros k [_ Hk]. simpl in *.
    pose proof (last_start_inside (length l) s k ltac:(done) Hk).
    rewrite length_slice. lia.
Qed.

Lemma batches_partition_witness :
  py_range_step (length [10; 11; 12; 13; 14]) 2 = Ok [0; 2; 4]%nat ∧
  concat ((λ i, slice [10; 11; 12; 13; 14] i (Z.to_nat 2)) <$> [0; 2; 4]%nat)
  = [10; 11; 12; 13; 14] ∧
  Forall (λ i, (0 < length (slice [10; 11; 12; 13; 14]%Z i (Z.to_nat 2))
                  ≤ Z.to_nat 2)%nat) [0; 2; 4]%nat.
Proof.
  split; [reflexivity|].
  apply (batches_partition [10; 11; 12; 13; 14] 2 [0; 2; 4]%nat);
    [lia|reflexivity].
Defined.

(** ** The decoding loop *)

Lemma tensor_index_outcome (len : nat) (idx : Z) :
  (- Z.of_nat len ≤ idx < Z.of_nat len → ∃ i, tensor_index len idx = Ok i) ∧
  (¬ (- Z.of_nat len ≤ idx < Z.of_nat len) → tensor_index len idx = Err IndexError).
Proof.
  unfold tensor_index. repeat case_decide; split; intros; eauto; lia.
Qed.

Lemma index_fill_loop_outcome (len : nat) (idxs : list Z) (v : Q) (acc : list Q) :
  (Forall (λ idx, - Z.of_nat len ≤ idx < Z.of_nat len) idxs →
   ∃ row', for_each (λ idx row', i ← tensor_index len idx; Ok (<[i := v]> row'))
                    idxs acc = Ok row') ∧
  (¬ Forall (λ idx, - Z.of_nat len ≤ idx < Z.of_nat len) idxs →
   for_each (λ idx row', i ← tensor_index len idx; Ok (<[i := v]> row'))
            idxs acc = Err IndexError).
Proof.
  revert acc. induction idxs as [|idx idxs IH]; intros acc.
  - split; [by eexists|]. intros []. constructor.
  - rewrite for_each_cons.
    destruct (tensor_index_outcome len idx) as [Hin Hout].
    destruct (decide (- Z.of_nat len ≤ idx < Z.of_nat len)) as [Hidx|Hidx].
    + destruct (Hin Hidx) as [i ->]. simpl.
      destruct (IH (<[i := v]> acc)) as [IH1 IH2]. split.
      * intros [_ ?]%Forall_cons. by apply IH1.
      * intros Hnot. apply IH2. intros ?. apply Hnot. by constructor.
    + rewrite (Hout Hidx). simpl. split; [|done].
      intros [? _]%Forall_cons. done.
Qed.

Lemma index_fill_outcome (row : list Q) (idxs : list Z) (v : Q) :
  (Forall (λ idx, - Z.of_nat (length row) ≤ idx < Z.of_nat (length row)) idxs →
   ∃ row', index_fill row idxs v = Ok row') ∧
  (¬ Forall (λ idx, - Z.of_nat (length row) ≤ idx < Z.of_nat (length row)) idxs →
   index_fill row idxs v = Err IndexError).
Proof. apply index_fill_loop_outcome. Qed.

Section decode_outcomes.
Context {Pixels Counts Cache Encoded : Type}.
Context (settings : Settings) (processor : @Processor Pixels Counts).
Context (model : @Model Pixels Counts Cache Encoded).

Lemma decode_rows_outcome (logits : list (list Q))
    (batch_predictions0 : list (list Z)) (done0 : list bool) :
  match decode_rows processor logits batch_predictions0 done0 with
  | Ok s => batch_predictions s = batch_predictions0 ∧ done s = done0
  | Err e => e = TypeError
  end.
Proof.
  destruct logits as [|row logits].
  - by rewrite decode_rows_nil.
  - by rewrite decode_rows_TypeError.
Qed.

Lemma decode_step_outcome (pixels : Pixels) (counts : Counts) (st : DecodeState) :
  match decode_step processor model pixels counts st with
  | Ok (st', break) =>
      predictions st' = predictions st ∧ finished st' = finished st ∧
      break = forallb id (finished st) ∧
      model_calls st' = S (model_calls st)
  | Err e => e = TypeError
  end.
Proof.
  unfold decode_step.
  match goal with |- context [decode_rows ?p ?l ?b ?d] =>
    pose proof (decode_rows_outcome l b d) as H;
    destruct (decode_rows p l b d) as [s|e] end; simpl; [|done].
  destruct H as [Hp Hd]. rewrite Hd.
  by destruct (forallb id (finished st)).
Qed.

Lemma decode_while_outcome (left : nat) (pixels : Pixels) (counts : Counts)
    (st : DecodeState) :
  match decode_while processor model left pixels counts st with
  | Ok st' =>
      predictions st' = predictions st ∧ finished st' = finished st ∧
      (forallb id (finished st) = false →
       model_calls st' = (model_calls st + left)%nat)
  | Err e => e = TypeError
  end.
Proof.
  revert st. induction left as [|left IH]; intros st; simpl.
  - split_and!; [done|done|]. intros _. lia.
  - pose proof (decode_step_outcome pixels counts st) as Hstep.
    destruct (decode_step processor model pixels counts st)
      as [[st1 break]|e]; simpl; [|done].
    destruct Hstep as (Hp & Hf & Hb & Hc). destruct break.
    + split_and!; [done|done|]. intros Hno. congruence.
    + specialize (IH st1).
      destruct (decode_while processor model left pixels counts st1)
        as [st'|e]; [|done].
      destruct IH as (Hp' & Hf' & Hc'). split_and!; [congruence|congruence|].
      intros Hno. rewrite Hc' by congruence. lia.
Qed.

Lemma decode_batch_outcome (batch_images : list Image)
    (batch_boxes : list (list Box)) :
  match decode_batch settings processor model batch_images batch_boxes with
  | Ok st =>
      predictions st = replicate (length batch_images) [] ∧
      (batch_images ≠ [] →
       model_calls st = Z.to_nat (ORDER_MAX_BOXES settings))
  | Err e => e = TypeError
  end.
Proof.
  unfold decode_batch.
  match goal with |- context [decode_while ?p ?m ?l ?px ?c ?st] =>
    pose proof (decode_while_outcome l px c st) as H;
    destruct (decode_while p m l px c st) as [st'|e] end; [|done].
  destruct H as (Hp & _ & Hc). split; [done|].
  intros Hne. rewrite Hc; [done|]. simpl.
  destruct batch_images; done.
Qed.

End decode_outcomes.



(** X9.  One sample of a decoding step (lines 81-91) raises nothing but
    [IndexError], and it completes exactly when the sample has a row of
    logits and a prediction list, the row is not empty, every stored
    prediction is a valid index into the row (from -C to C-1 for a row
    of C scores), and, when the terminator is selected, the sample has a
    [done] flag. *)
Theorem decode_row_outcome {Pixels Counts : Type}
    (processor : @Processor Pixels Counts) (logits : list (list Q)) (j : nat)
    (s : StepLists) :
  ((∃ s', decode_row processor logits j s = Ok s') ∨
   decode_row processor logits j s = Err IndexError) ∧
  ((∃ s', decode_row processor logits j s = Ok s') ↔
   ∃ logits_j predictions_j pred,
     logits !! j = Some logits_j ∧
     batch_predictions s !! j = Some predictions_j ∧
     argmax logits_j = Ok pred ∧
     Forall (λ p, - Z.of_nat (length logits_j) ≤ p < Z.of_nat (length logits_j))
            predictions_j ∧
     (Z.of_nat pred = token_pad_id processor → (j < length (done s))%nat)).
Proof.
  unfold decode_row, py_getitem.
  destruct (logits !! j) as [logits_j|] eqn:Hl; simpl.
  2: { split; [by right|]. split; [intros [? ?]; done|].
       intros (? & ? & ? & ? & _); done. }
  destruct (batch_predictions s !! j) as [predictions_j|] eqn:Hp; simpl.
  2: { split; [by right|]. split; [intros [? ?]; done|].
       intros (? & ? & ? & _ & ? & _); done. }
  destruct (index_fill_outcome logits_j predictions_j masked_score) as [Hin Hout].
  destruct (decide (Forall (λ p, - Z.of_nat (length logits_j) ≤ p
                                 < Z.of_nat (length logits_j)) predictions_j))
    as [Hidx|Hidx].
  2: { rewrite (Hout Hidx). simpl. split; [by right|].
       split; [intros [? ?]; done|].
       intros (? & ? & ? & ? & ? & _ & ? & _). simplify_eq. done. }
  destruct (Hin Hidx) as [new_logits ->]. simpl.
  destruct (argmax logits_j) as [pred|e] eqn:Hargmax; simpl.
  2: { assert (e = IndexError) as ->
         by (unfold argmax in Hargmax; destruct logits_j; congruence).
       split; [by right|]. split; [intros [? ?]; done|].
       intros (? & ? & ? & ? & ? & ? & _). simplify_eq. congruence. }
  case_decide as Hpad.
  - unfold py_setitem. case_decide as Hj; simpl.
    + split; [left; by eexists|]. split; [|intros _; by eexists].
      intros _. exists logits_j, predictions_j, pred. by split_and!.
    + split; [by right|]. split; [intros [? ?]; done|].
      intros (? & ? & pred' & ? & ? & ? & _ & Hdone). simplify_eq.
      assert (pred' = pred) as -> by congruence.
      destruct Hj. by apply Hdone.
  - split; [left; by eexists|]. split; [|intros _; by eexists].
    intros _. exists logits_j, predictions_j, pred. by split_and!.
Qed.

(** X10.  As written, the decoding of a batch never records a
    prediction.  The loop header of line 80 binds an integer to the
    target list [j,], so a step whose model output has a row of logits
    raises [TypeError]; a batch that completes comes back with the empty
    prediction lists it started with, and, when the batch is not empty,
    after as many model calls as the cap [ORDER_MAX_BOXES] allows. *)
Theorem decoding_as_written {Pixels Counts Cache Encoded : Type}
    (settings : Settings) (processor : @Processor Pixels Counts)
    (model : @Model Pixels Counts Cache Encoded)
    (batch_images : list Image) (batch_boxes : list (list Box)) :
  match decode_batch settings processor model batch_images batch_boxes with
  | Ok st =>
      predictions st = replicate (length batch_images) [] ∧
      (batch_images ≠ [] →
       model_calls st = Z.to_nat (ORDER_MAX_BOXES settings))
  | Err e => e = TypeError
  end.
Proof. apply decode_batch_outcome. Qed.

(** ** The whole call: exceptions and the shape of the result *)

Lemma for_each_Err {A St : Type} (body : A → St → result St) (xs : list A)
    (acc : St) (e : exn) :
  for_each body xs acc = Err e → ∃ x s, x ∈ xs ∧ body x s = Err e.
Proof.
  revert acc. induction xs as [|x xs IH]; intros acc; [done|].
  rewrite for_each_cons. destruct (body x acc) as [acc'|e'] eqn:Hbody; simpl.
  - intros (y & s & Hy & Hs)%IH. exists y, s. split; [by right|done].
  - intros [= ->]. exists x, acc. split; [by left|done].
Qed.

Lemma check_labels_outcome (images : list Image) (bboxes_all : list (list Box))
    (labels : option (list (list string))) :
  check_labels images bboxes_all labels = Ok tt ∨
  check_labels images bboxes_all labels = Err AssertionError.
Proof.
  destruct (check_labels images bboxes_all labels) as [[]|e] eqn:H; [by left|].
  right. f_equal. unfold check_labels in H. destruct labels as [ls|]; [|done].
  unfold py_assert in H. case_bool_decide; simpl in H; [|congruence].
  apply for_each_Err in H as ([l b] & s & _ & Hbody).
  case_bool_decide; simpl in Hbody; congruence.
Qed.

Lemma check_labels_mismatch (images : list Image) (bboxes_all : list (list Box))
    (ls : list (list string)) :
  (length ls ≠ length images ∨
   ∃ k l b, ls !! k = Some l ∧ bboxes_all !! k = Some b ∧ length l ≠ length b) →
  check_labels images bboxes_all (Some ls) = Err AssertionError.
Proof.
  intros Hbad.
  destruct (check_labels_outcome images bboxes_all (Some ls)) as [Hok|]; [|done].
  apply check_labels_Ok in Hok as [Hlen Hall].
  destruct Hbad as [?|(k & l & b & Hl & Hb & Hne)]; [done|].
  destruct Hne. by eapply Hall.
Qed.

Section whole_call.
Context {Pixels Counts Cache Encoded : Type}.
Context (settings : Settings) (processor : @Processor Pixels Counts).
Context (model : @Model Pixels Counts Cache Encoded).
Context (images : list Image) (bboxes_all : list (list Box)).
Context (labels : option (list (list string))).
Hypothesis same_length : length images = length bboxes_all.

Lemma run_batch_results (s i : nat) (output_order results : list OrderResult) :
  run_batch settings processor model images bboxes_all labels s i output_order
    = Ok results →
  ∃ st rs,
    decode_batch settings processor model (slice images i s)
                 (slice bboxes_all i s) = Ok st ∧
    results = output_order ++ rs ∧
    length rs = length (slice images i s) ∧
    ∀ j r, rs !! j = Some r →
      ∃ row_pred, predictions st !! j = Some row_pred ∧
        order_row bboxes_all labels (size <$> images) 0 (i + j) row_pred = Ok r.
Proof.
  unfold run_batch. intros (st & Hdecode & Hassemble)%bind_Ok.
  apply assemble_batch_Ok in Hassemble as (rs & -> & Hlen & Hrows).
  pose proof (decode_batch_length _ _ _ _ _ _ Hdecode) as Hpreds.
  exists st, rs. split_and!; [done|done|congruence|].
  intros j r Hr.
  destruct (lookup_lt_is_Some_2 (predictions st) j) as [row_pred Hp].
  { rewrite <- Hlen. by eapply lookup_lt_Some. }
  destruct (Hrows j row_pred Hp) as (r' & Hr' & Horder).
  assert (r' = r) as -> by congruence.
  exists row_pred. split; [done|].
  rewrite <- (order_row_shift bboxes_all labels images i s j row_pred); [done|].
  apply lookup_lt_Some in Hr. rewrite Hlen, Hpreds, length_slice in Hr. lia.
Qed.

Lemma run_batches_results (s m : nat) (results : list OrderResult) :
  (0 < s)%nat →
  for_each (run_batch settings processor model images bboxes_all labels s)
           ((λ k, k * s)%nat <$> seq 0 m) [] = Ok results →
  length results = ((m * s) `min` length images)%nat ∧
  ∀ k r, results !! k = Some r →
    ∃ i j st row_pred,
      k = (i + j)%nat ∧
      decode_batch settings processor model (slice images i s)
                   (slice bboxes_all i s) = Ok st ∧
      predictions st !! j = Some row_pred ∧
      order_row bboxes_all labels (size <$> images) 0 k row_pred = Ok r.
Proof.
  intros Hs. revert results. induction m as [|m IH]; intros results.
  - simpl. intros [= <-]. split; [done|]. intros k r Hk. done.
  - rewrite seq_S, fmap_app, for_each_app. simpl.
    intros (mid & Hmid & Hlast)%bind_Ok.
    apply bind_Ok in Hlast as (results' & Hlast & [= ->]).
    destruct (IH mid Hmid) as [Hlen Hall].
    apply run_batch_results in Hlast as (st & rs & Hdecode & -> & Hrs & Hrows).
    rewrite length_slice in Hrs. split.
    + rewrite length_app. lia.
    + intros k r Hk. destruct (decide (k < length mid)%nat) as [Hlt|Hge].
      * rewrite lookup_app_l in Hk by done. by apply Hall.
      * rewrite lookup_app_r in Hk by lia.
        pose proof (lookup_lt_Some _ _ _ Hk) as Hin.
        assert (length mid = (m * s)%nat) as Hmid_len by lia.
        destruct (Hrows _ _ Hk) as (row_pred & Hp & Horder).
        exists (m * s)%nat, (k - length mid)%nat, st, row_pred.
        split_and!; [lia|done|done|].
        rewrite <- Horder. f_equal. lia.
Qed.

Lemma run_batch_errors (s i : nat) (output_order : list OrderResult) (e : exn) :
  (∀ ls, labels = Some ls → length ls = length images) →
  run_batch settings processor model images bboxes_all labels s i output_order
    = Err e →
  e = AssertionError ∨ (e = TypeError ∧ 0 < ORDER_MAX_BOXES settings).
Proof.
  intros Hlabels. unfold run_batch.
  pose proof (decode_batch_outcome settings processor model
                (slice images i s) (slice bboxes_all i s)) as Hout.
  destruct (decode_batch settings processor model (slice images i s)
              (slice bboxes_all i s)) as [st|e'] eqn:Hdecode; simpl.
  - intros Herr. left. unfold assemble_batch in Herr.
    apply for_each_Err in Herr as ([j row_pred] & out & Hin & Hbody).
    apply list_elem_of_lookup in Hin as [j' Hin].
    rewrite enumerate_lookup in Hin.
    destruct (predictions st !! j') as [p|] eqn:Hp; simplify_eq/=.
    pose proof (decode_batch_length _ _ _ _ _ _ Hdecode) as Hpreds.
    apply lookup_lt_Some in Hp. rewrite Hpreds, length_slice in Hp.
    destruct (order_row_outcome bboxes_all labels (size <$> slice images i s)
                i j row_pred) as [[r Hr]|Hr].
    + apply lookup_lt_is_Some_2. lia.
    + apply lookup_lt_is_Some_2. rewrite length_fmap, length_slice. lia.
    + intros ls ->. apply lookup_lt_is_Some_2. rewrite (Hlabels ls eq_refl). lia.
    + rewrite Hr in Hbody. done.
    + rewrite Hr in Hbody. simpl in Hbody. congruence.
  - intros [= <-]. right. split; [done|].
    unfold decode_batch in Hdecode.
    destruct (Z.to_nat (ORDER_MAX_BOXES settings)) eqn:Hmax; [done|lia].
Qed.
End whole_call.

Lemma size_convert_RGB (images : list Image) :
  size <$> (convert_RGB <$> images) = size <$> images.
Proof. rewrite <- list_fmap_compose. by apply list_fmap_ext. Qed.

Section whole_call_results.
Context {Pixels Counts Cache Encoded : Type}.
Context (settings : Settings) (processor : @Processor Pixels Counts).
Context (model : @Model Pixels Counts Cache Encoded).

(** A returned list holds, for every submitted sample, the assembly of
    the predictions its batch decoded for it; as written these are
    empty (see [decode_batch_outcome]). *)
Lemma batch_ordering_samples (images : list Image)
    (bboxes_all : list (list Box)) (labels : option (list (list string)))
    (results : list OrderResult) :
  0 < get_batch_size settings →
  batch_ordering settings processor model images bboxes_all labels = Ok results →
  length images = length bboxes_all ∧
  check_labels images bboxes_all labels = Ok tt ∧
  length results = length images ∧
  ∀ k r, results !! k = Some r →
    ∃ image,
      images !! k = Some image ∧ bboxes_all !! k = Some [] ∧
      r = {| bboxes := [];
             image_bbox := [0; 0; (size image).1; (size image).2] |}.
Proof.
  intros Hsize H. unfold batch_ordering in H.
  rewrite (py_range_step_positive _ _ Hsize) in H.
  set (s := Z.to_nat (get_batch_size settings)) in *.
  assert (0 < s)%nat as Hs by (unfold s; lia).
  pose proof (ceil_div_covers (length (convert_RGB <$> images)) s Hs) as Hcover.
  apply bind_Ok in H as ([] & Hlen & H).
  unfold py_assert in Hlen. case_bool_decide as Hsame; [clear Hlen|done].
  apply bind_Ok in H as ([] & Hcheck & H). simpl in H.
  assert (length (convert_RGB <$> images) = length bboxes_all) as Hsame'
    by (by rewrite length_fmap).
  apply (run_batches_results settings processor model (convert_RGB <$> images)
           bboxes_all labels Hsame' s _ results Hs) in H as [Hres_len Hres].
  rewrite length_fmap in Hres_len, Hcover.
  split_and!; [done|done|lia|].
  intros k r Hk.
  destruct (Hres k r Hk) as (i & j & st & row_pred & -> & Hdecode & Hp & Horder).
  rewrite size_convert_RGB in Horder.
  pose proof (decode_batch_outcome settings processor model
                (slice (convert_RGB <$> images) i s) (slice bboxes_all i s)) as Hout.
  rewrite Hdecode in Hout. destruct Hout as [Hempty _].
  rewrite Hempty in Hp. apply lookup_replicate_1 in Hp as [-> _].
  apply order_row_Ok in Horder
    as (boxes & orig_size & Hb & Hrow_len & Hsz & Himg & Hboxes).
  simpl in Hb, Hrow_len. symmetry in Hrow_len.
  apply nil_length_inv in Hrow_len as ->.
  apply list_lookup_fmap_Some in Hsz as (image & -> & Himage).
  exists image. split_and!; [done|done|].
  assert (bboxes r = []) as Hnone.
  { destruct labels as [ls|].
    - destruct Hboxes as (row_label_list & Hl & ->).
      apply check_labels_Ok in Hcheck as [_ Hlabels].
      pose proof (Hlabels _ _ _ Hl Hb) as Hll.
      apply nil_length_inv in Hll as ->. done.
    - by rewrite Hboxes. }
  destruct r as [bs ib]. simpl in *. by subst.
Qed.
End whole_call_results.

(** X12.  Lists that do not line up are rejected before anything else
    is looked at: when the images and the box lists differ in number,
    or labels are given and their number differs from the number of
    images, or some sample has a label list and a box list of different
    lengths, the call raises [AssertionError], whatever the settings,
    the preprocessor and the model. *)
Theorem batch_ordering_rejects_mismatched_lists
    {Pixels Counts Cache Encoded : Type}
    (settings : Settings) (processor : @Processor Pixels Counts)
    (model : @Model Pixels Counts Cache Encoded)
    (images : list Image) (bboxes_all : list (list Box))
    (labels : option (list (list string))) :
  length images ≠ length bboxes_all ∨
  (∃ ls, labels = Some ls ∧
     (length ls ≠ length images ∨
      ∃ k l b, ls !! k = Some l ∧ bboxes_all !! k = Some b ∧
               length l ≠ length b)) →
  batch_ordering settings processor model images bboxes_all labels
  = Err AssertionError.
Proof.
  intros Hbad. unfold batch_ordering, py_assert.
  case_bool_decide as Hsame; [|done]. simpl.
  destruct Hbad as [?|(ls & -> & Hbad)]; [done|].
  by rewrite (check_labels_mismatch images bboxes_all ls Hbad).
Qed.

Lemma batch_ordering_rejects_mismatched_lists_witness :
  batch_ordering (example_settings 0 256) (example_processor 4 0)
                 (example_model [])
                 [example_image 10 20; example_image 30 40]
                 [[[1%Q]]; []] (Some [["Text"]; ["Text"]])
  = Err AssertionError.
Proof.
  apply batch_ordering_rejects_mismatched_lists.
  right. exists [["Text"]; ["Text"]]. split; [done|]. right.
  exists 1%nat, ["Text"], []. by split_and!.
Defined.

(** X13.  The call raises [ValueError] exactly when its lists line up
    and the batch size is 0 (the step of [range] at line 46); this
    happens for an empty list of images too. *)
Theorem batch_ordering_ValueError {Pixels Counts Cache Encoded : Type}
    (settings : Settings) (processor : @Processor Pixels Counts)
    (model : @Model Pixels Counts Cache Encoded)
    (images : list Image) (bboxes_all : list (list Box))
    (labels : option (list (list string))) :
  batch_ordering settings processor model images bboxes_all labels
    = Err ValueError ↔
  length images = length bboxes_all ∧
  check_labels images bboxes_all labels = Ok tt ∧
  get_batch_size settings = 0.
Proof.
  unfold batch_ordering, py_assert. split.
  - case_bool_decide as Hsame; [|done]. simpl.
    destruct (check_labels_outcome images bboxes_all labels) as [Hcheck|Hcheck];
      rewrite Hcheck; [|done]. simpl.
    unfold py_range_step. case_decide as Hzero; [done|]. simpl.
    case_decide as Hneg; [done|]. simpl. intros Herr.
    apply for_each_Err in Herr as (i & out & _ & Herr).
    apply run_batch_errors in Herr as [?|[? _]]; [done|done| |].
    + by rewrite length_fmap.
    + intros ls ->. apply check_labels_Ok in Hcheck as [-> _].
      by rewrite length_fmap.
  - intros (Hsame & Hcheck & Hzero).
    rewrite bool_decide_eq_true_2 by done. simpl. rewrite Hcheck. simpl.
    unfold py_range_step. by rewrite decide_True.
Qed.

(** X14.  With a negative batch size there is no batch: the call
    returns the empty list for any number of images whose lists line
    up, and the model is not consulted.  The same holds for an empty
    list of images with a positive batch size. *)
Theorem batch_ordering_no_batch {Pixels Counts Cache Encoded : Type}
    (settings : Settings) (processor : @Processor Pixels Counts)
    (model : @Model Pixels Counts Cache Encoded)
    (images : list Image) (bboxes_all : list (list Box))
    (labels : option (list (list string))) :
  length images = length bboxes_all →
  check_labels images bboxes_all labels = Ok tt →
  get_batch_size settings < 0 ∨ (0 < get_batch_size settings ∧ images = []) →
  batch_ordering settings processor model images bboxes_all labels = Ok [].
Proof.
  intros Hsame Hcheck Hsize. unfold batch_ordering.
  rewrite bool_decide_eq_true_2 by done. simpl. rewrite Hcheck. simpl.
  destruct Hsize as [Hneg|[Hpos ->]].
  - unfold py_range_step. rewrite decide_False by lia.
    by rewrite decide_True by lia.
  - rewrite (py_range_step_positive _ _ Hpos). simpl length.
    by rewrite Nat.div_small by lia.
Qed.

Lemma batch_ordering_no_batch_witness :
  batch_ordering (example_settings (-1) 256) (example_processor 4 0)
                 (example_model [[0%Q; 1%Q]])
                 [example_image 10 20; example_image 30 40]
                 [[[1%Q]]; [[2%Q]; [3%Q]]] (Some [["Text"]; ["Text"; "Table"]])
  = Ok [].
Proof.
  apply batch_ordering_no_batch; [reflexivity|reflexivity|].
  left. reflexivity.
Defined.

(** X15.  The call never raises [IndexError].  An exception it raises
    is an [AssertionError], or the [ValueError] of a batch size 0, or
    the [TypeError] of the loop header of line 80, which needs a
    positive batch size, a positive [ORDER_MAX_BOXES] and at least one
    image. *)
Theorem batch_ordering_exceptions {Pixels Counts Cache Encoded : Type}
    (settings : Settings) (processor : @Processor Pixels Counts)
    (model : @Model Pixels Counts Cache Encoded)
    (images : list Image) (bboxes_all : list (list Box))
    (labels : option (list (list string))) (e : exn) :
  batch_ordering settings processor model images bboxes_all labels = Err e →
  e = AssertionError ∨
  (e = ValueError ∧ get_batch_size settings = 0) ∨
  (e = TypeError ∧ 0 < get_batch_size settings ∧
   0 < ORDER_MAX_BOXES settings ∧ images ≠ []).
Proof.
  unfold batch_ordering, py_assert.
  case_bool_decide as Hsame; simpl; [|intros [= <-]; by left].
  destruct (check_labels_outcome images bboxes_all labels) as [Hcheck|Hcheck];
    rewrite Hcheck; simpl; [|intros [= <-]; by left].
  unfold py_range_step. case_decide as Hzero; simpl.
  { intros [= <-]. right. by left. }
  case_decide as Hneg; [done|]. simpl. intros Herr.
  apply for_each_Err in Herr as (i & out & Hin & Herr).
  apply run_batch_errors in Herr as [?|[-> Hmax]]; [by left| | |].
  - right. right. split_and!; [done|lia|done|].
    intros ->. simpl in Hin. rewrite Nat.div_small in Hin by lia.
    by apply elem_of_nil in Hin.
  - by rewrite length_fmap.
  - intros ls ->. apply check_labels_Ok in Hcheck as [-> _].
    by rewrite length_fmap.
Qed.

Lemma batch_ordering_exceptions_witness :
  let call :=
    batch_ordering (example_settings 2 256) (example_processor 4 0)
                   (example_model [[0%Q; 1%Q]])
                   [example_image 10 20] [[[1%Q]]] None in
  call = Err TypeError ∧
  (TypeError = AssertionError ∨
   (TypeError = ValueError ∧ get_batch_size (example_settings 2 256) = 0) ∨
   (TypeError = TypeError ∧ 0 < get_batch_size (example_settings 2 256) ∧
    0 < ORDER_MAX_BOXES (example_settings 2 256) ∧ [example_image 10 20] ≠ [])).
Proof.
  split; [reflexivity|].
  exact (batch_ordering_exceptions (example_settings 2 256)
           (example_processor 4 0) (example_model [[0%Q; 1%Q]])
           [example_image 10 20] [[[1%Q]]] None TypeError eq_refl).
Defined.

(** X16.  As written, a call with a positive batch size returns only
    for pages without boxes.  When it returns, every submitted box list
    is empty, and the result holds one entry per image, in submitted
    order, with no boxes and the image's [0, 0, width, height]. *)
Theorem batch_ordering_returns_only_without_boxes
    {Pixels Counts Cache Encoded : Type}
    (settings : Settings) (processor : @Processor Pixels Counts)
    (model : @Model Pixels Counts Cache Encoded)
    (images : list Image) (bboxes_all : list (list Box))
    (labels : option (list (list string))) (results : list OrderResult) :
  0 < get_batch_size settings →
  batch_ordering settings processor model images bboxes_all labels = Ok results →
  Forall (λ boxes, boxes = []) bboxes_all ∧
  results = (λ image, {| bboxes := [];
                         image_bbox := [0; 0; (size image).1; (size image).2] |})
              <$> images.
Proof.
  intros Hsize Hok.
  apply batch_ordering_samples in Hok as (Hsame & _ & Hlen & Hres); [|done].
  split.
  - apply Forall_lookup. intros k boxes Hb.
    destruct (lookup_lt_is_Some_2 results k) as [r Hr].
    { rewrite Hlen, Hsame. by eapply lookup_lt_Some. }
    destruct (Hres k r Hr) as (image & _ & Hb' & _). congruence.
  - apply list_eq_same_length with (length images); [by rewrite length_fmap|done|].
    intros k r r' _ Hr Hr'.
    destruct (Hres k r Hr) as (image & Himage & _ & ->).
    rewrite list_lookup_fmap, Himage in Hr'. simpl in Hr'. congruence.
Qed.

Lemma batch_ordering_returns_only_without_boxes_witness :
  let images := [example_image 10 20; example_image 30 40; example_image 5 6] in
  let call :=
    batch_ordering (example_settings 2 0) (example_processor 4 0)
                   (example_model [[0%Q; 1%Q]]) images [[]; []; []] None in
  call = Ok [ {| bboxes := []; image_bbox := [0; 0; 10; 20] |};
              {| bboxes := []; image_bbox := [0; 0; 30; 40] |};
              {| bboxes := []; image_bbox := [0; 0; 5; 6] |} ] ∧
  Forall (λ boxes : list Box, boxes = []) [[]; []; []].
Proof.
  split; [reflexivity|].
  by apply (batch_ordering_returns_only_without_boxes (example_settings 2 0)
              (example_processor 4 0) (example_model [[0%Q; 1%Q]])
              [example_image 10 20; example_image 30 40; example_image 5 6]
              [[]; []; []] None
              [ {| bboxes := []; image_bbox := [0; 0; 10; 20] |};
                {| bboxes := []; image_bbox := [0; 0; 30; 40] |};
                {| bboxes := []; image_bbox := [0; 0; 5; 6] |} ]).
Defined.

(** ** [LayoutEncoderDecoderModel.forward] *)

Lemma startswith_drop_chars (s prefix : string) :
  encoderdecoder.startswith s prefix = true →
  s = prefix +:+ encoderdecoder.drop_chars (String.length prefix) s.
Proof.
  unfold encoderdecoder.startswith. revert s.
  induction prefix as [|a prefix IH]; intros s; [done|].
  destruct s as [|b s]; simpl; [done|].
  destruct (Ascii.ascii_dec a b) as [->|]; [|done].
  intros H.
  change (String b s
          = String b (prefix +:+ encoderdecoder.drop_chars (String.length prefix) s)).
  f_equal. by apply IH.
Qed.

Lemma startswith_app (prefix s : string) :
  encoderdecoder.startswith (prefix +:+ s) prefix = true ∧
  encoderdecoder.drop_chars (String.length prefix) (prefix +:+ s) = s.
Proof.
  unfold encoderdecoder.startswith.
  induction prefix as [|a prefix IH].
  - split; [by destruct s|done].
  - change (String a prefix +:+ s) with (String a (prefix +:+ s)). simpl.
    destruct (Ascii.ascii_dec a a); [done|done].
Qed.

Lemma item_assign_fresh {V : Type} (d : list (string * V)) (k : string) (v : V) :
  k ∉ d.*1 → encoderdecoder.item_assign d k v = d ++ [(k, v)].
Proof.
  induction d as [|[k' v'] d IH]; [done|]. simpl.
  intros [? ?]%not_elem_of_cons. rewrite decide_False by done.
  by rewrite IH.
Qed.

Section dict_comprehension_facts.
Context {V : Type} (key : string → string) (cond : string → bool).

Lemma dict_comprehension_loop_fresh (items acc : list (string * V)) :
  NoDup (acc.*1 ++ (key <$> filter (λ argument, cond argument) items.*1)) →
  foldl (λ d '(argument, value),
           if cond argument then encoderdecoder.item_assign d (key argument) value
           else d) acc items
  = acc ++ ((λ item, (key item.1, item.2))
              <$> filter (λ item, cond item.1) items).
Proof.
  revert acc. induction items as [|[argument value] items IH]; intros acc Hnd.
  - simpl. by rewrite app_nil_r.
  - rewrite filter_cons. rewrite fmap_cons, filter_cons in Hnd.
    cbn [foldl fst snd] in *. destruct (cond argument) eqn:Hcond.
    + rewrite decide_True in Hnd by done. rewrite decide_True by done.
      rewrite fmap_cons in Hnd. rewrite fmap_cons. cbn [fst snd].
      rewrite item_assign_fresh.
      * rewrite IH; [by rewrite <- app_assoc|].
        by rewrite fmap_app, <- app_assoc.
      * apply NoDup_app in Hnd as (_ & Hnot & _).
        intros Hin. apply (Hnot _ Hin). by left.
    + rewrite decide_False in Hnd by (by intros []).
      rewrite decide_False by (by intros []).
      by apply IH.
Qed.

Lemma dict_comprehension_fresh (items : list (string * V)) :
  NoDup (key <$> filter (λ argument, cond argument) items.*1) →
  encoderdecoder.dict_comprehension key cond items
  = (λ item, (key item.1, item.2)) <$> filter (λ item, cond item.1) items.
Proof.
  intros Hnd. unfold encoderdecoder.dict_comprehension.
  by rewrite dict_comprehension_loop_fresh.
Qed.

Lemma dict_comprehension_loop_filter (items acc : list (string * V)) :
  foldl (λ d '(argument, value),
           if cond argument then encoderdecoder.item_assign d (key argument) value
           else d) acc items
  = foldl (λ d '(argument, value),
             if cond argument then encoderdecoder.item_assign d (key argument) value
             else d) acc (filter (λ item, cond item.1) items).
Proof.
  revert acc. induction items as [|[argument value] items IH]; intros acc; [done|].
  rewrite filter_cons. simpl. destruct (cond argument) eqn:Hcond.
  - rewrite decide_True by done. simpl. rewrite Hcond. apply IH.
  - rewrite decide_False by (by intros []). apply IH.
Qed.
End dict_comprehension_facts.

Lemma filter_keys {V : Type} (cond : string → bool) (items : list (string * V)) :
  filter (λ argument, cond argument) items.*1
  = (filter (λ item, cond item.1) items).*1.
Proof.
  induction items as [|[argument value] items IH]; [done|].
  rewrite fmap_cons, !filter_cons. simpl.
  destruct (cond argument); simpl; by rewrite IH.
Qed.

Lemma kwargs_encoder_distinct {V : Type} (kwargs : list (string * V)) :
  NoDup kwargs.*1 →
  encoderdecoder.kwargs_encoder kwargs
  = filter (λ item, negb (encoderdecoder.startswith item.1 "decoder_")) kwargs.
Proof.
  intros Hnd. unfold encoderdecoder.kwargs_encoder.
  rewrite dict_comprehension_fresh.
  - rewrite <- (list_fmap_id (filter _ kwargs)) at 2.
    apply list_fmap_ext. by intros _ [? ?] _.
  - rewrite list_fmap_id. by apply NoDup_filter.
Qed.

Lemma kwargs_decoder_distinct {V : Type} (kwargs : list (string * V)) :
  NoDup kwargs.*1 →
  encoderdecoder.kwargs_decoder kwargs
  = (λ item, (encoderdecoder.drop_chars (String.length "decoder_") item.1, item.2))
      <$> filter (λ item, encoderdecoder.startswith item.1 "decoder_") kwargs ∧
  NoDup (encoderdecoder.kwargs_decoder kwargs).*1.
Proof.
  intros Hnd.
  assert (NoDup (encoderdecoder.drop_chars (String.length "decoder_")
                   <$> filter (λ argument, encoderdecoder.startswith argument "decoder_")
                              kwargs.*1)) as Hnd'.
  { apply NoDup_fmap_2_strong; [|by apply NoDup_filter].
    intros a b [Ha _]%list_elem_of_filter [Hb _]%list_elem_of_filter Heq.
    apply Is_true_true in Ha, Hb.
    rewrite (startswith_drop_chars a "decoder_" Ha),
            (startswith_drop_chars b "decoder_" Hb).
    by rewrite Heq. }
  unfold encoderdecoder.kwargs_decoder.
  rewrite dict_comprehension_fresh by done. split; [done|].
  rewrite <- list_fmap_compose.
  rewrite filter_keys, <- list_fmap_compose in Hnd'. done.
Qed.

Lemma kwargs_decoder_elem_of {V : Type} (kwargs : list (string * V))
    (name : string) (value : V) :
  NoDup kwargs.*1 →
  (name, value) ∈ encoderdecoder.kwargs_decoder kwargs ↔
  ("decoder_" +:+ name, value) ∈ kwargs.
Proof.
  intros Hnd. destruct (kwargs_decoder_distinct kwargs Hnd) as [-> _].
  rewrite list_elem_of_fmap. split.
  - intros ([argument value'] & [= -> ->] & [Hcond Hin]%list_elem_of_filter).
    cbn [fst snd] in *. apply Is_true_true in Hcond.
    rewrite (startswith_drop_chars argument "decoder_" Hcond) in Hin.
    exact Hin.
  - intros Hin. exists ("decoder_" +:+ name, value).
    destruct (startswith_app "decoder_" name) as [Hcond Hdrop].
    split; [cbn [fst snd]; by rewrite Hdrop|].
    apply list_elem_of_filter. split; [|done]. cbn [fst]. by apply Is_true_true.
Qed.

(** X17.  [forward] hands every keyword argument it does not bind
    itself to exactly one side: a name that starts with "decoder_" goes
    to the decoder without the prefix, any other name goes to the
    encoder as it is; the order is kept, and no argument overwrites
    another. *)
Theorem forward_kwargs_split {V : Type} (kwargs : list (string * V)) :
  NoDup kwargs.*1 →
  encoderdecoder.kwargs_encoder kwargs
  = filter (λ item, negb (encoderdecoder.startswith item.1 "decoder_")) kwargs ∧
  encoderdecoder.kwargs_decoder kwargs
  = (λ item, (encoderdecoder.drop_chars (String.length "decoder_") item.1, item.2))
      <$> filter (λ item, encoderdecoder.startswith item.1 "decoder_") kwargs ∧
  NoDup (encoderdecoder.kwargs_decoder kwargs).*1 ∧
  (∀ name value,
     (name, value) ∈ encoderdecoder.kwargs_decoder kwargs ↔
     ("decoder_" +:+ name, value) ∈ kwargs) ∧
  (length (encoderdecoder.kwargs_encoder kwargs)
   + length (encoderdecoder.kwargs_decoder kwargs) = length kwargs)%nat.
Proof.
  intros Hnd. destruct (kwargs_decoder_distinct kwargs Hnd) as [Hdec Hnd'].
  split_and!; [by apply kwargs_encoder_distinct|done|done| |].
  - intros name value. by apply kwargs_decoder_elem_of.
  - rewrite kwargs_encoder_distinct, Hdec, length_fmap by done.
    clear. induction kwargs as [|[argument value] kwargs IH]; [done|].
    rewrite !filter_cons. simpl.
    destruct (encoderdecoder.startswith argument "decoder_"); simpl; lia.
Qed.

Lemma forward_kwargs_split_witness :
  let kwargs : list (string * Z) :=
    [("decoder_input_boxes", 1); ("output_attentions", 2);
     ("decoder_input_boxes_mask", 3); ("decoder_", 4)] in
  encoderdecoder.kwargs_encoder kwargs = [("output_attentions", 2)] ∧
  encoderdecoder.kwargs_decoder kwargs
  = [("input_boxes", 1); ("input_boxes_mask", 3); ("", 4)] ∧
  (length (encoderdecoder.kwargs_encoder kwargs)
   + length (encoderdecoder.kwargs_decoder kwargs) = length kwargs)%nat.
Proof.
  intros kwargs. split; [reflexivity|]. split; [reflexivity|].
  apply (forward_kwargs_split kwargs).
  repeat constructor; rewrite ?not_elem_of_cons; split_and?;
    (discriminate || apply not_elem_of_nil).
Defined.

Lemma kwargs_decoder_filter {V : Type} (kwargs : list (string * V)) :
  encoderdecoder.kwargs_decoder kwargs
  = encoderdecoder.kwargs_decoder
      (filter (λ item, encoderdecoder.startswith item.1 "decoder_") kwargs).
Proof.
  unfold encoderdecoder.kwargs_decoder, encoderdecoder.dict_comprehension.
  apply dict_comprehension_loop_filter.
Qed.

Lemma encoder_call_accepts {V : Type} (kwargs : list (string * V)) :
  encoderdecoder.received kwargs →
  encoderdecoder.call_keywords ["pixel_values"] (encoderdecoder.kwargs_encoder kwargs)
  = encoderdecoder.Return tt.
Proof.
  intros [Hnd Hnames]. unfold encoderdecoder.call_keywords.
  rewrite bool_decide_eq_true_2; [done|].
  rewrite kwargs_encoder_distinct by done.
  apply Forall_forall. intros [argument value] [_ Hin]%list_elem_of_filter.
  rewrite Forall_forall in Hnames. cbn [fst].
  intros ->%list_elem_of_singleton.
  apply (Hnames "pixel_values").
  - apply list_elem_of_fmap. by exists ("pixel_values", value).
  - by left.
Qed.

Lemma decoder_call_collision {V : Type} (kwargs : list (string * V)) :
  encoderdecoder.received kwargs →
  encoderdecoder.call_keywords
    ["input_ids"; "cache_position"; "attention_mask"; "encoder_hidden_states";
     "encoder_attention_mask"; "use_cache"]
    (encoderdecoder.kwargs_decoder kwargs)
  = if decide (Exists (λ argument,
                         argument ∈ ["decoder_encoder_hidden_states";
                                    "decoder_encoder_attention_mask";
                                    "decoder_use_cache"]) kwargs.*1)
    then encoderdecoder.Raise encoderdecoder.TypeError
    else encoderdecoder.Return tt.
Proof.
  intros [Hnd Hnames]. unfold encoderdecoder.call_keywords.
  rewrite Forall_forall in Hnames.
  case_decide as Hclash; rewrite Exists_exists in Hclash.
  - rewrite bool_decide_eq_false_2; [done|].
    destruct Hclash as (argument & Hin & Hthree).
    apply list_elem_of_fmap in Hin as ([argument' value] & -> & Hin).
    cbn [fst] in Hthree. rewrite Forall_forall. intros Hall.
    assert (∃ name, argument' = "decoder_" +:+ name ∧
                    name ∈ ["input_ids"; "cache_position"; "attention_mask";
                            "encoder_hidden_states"; "encoder_attention_mask";
                            "use_cache"]) as (name & -> & Hname).
    { repeat (apply elem_of_cons in Hthree as [->|Hthree]).
      - exists "encoder_hidden_states". split; [done|]. do 3 right. by left.
      - exists "encoder_attention_mask". split; [done|]. do 4 right. by left.
      - exists "use_cache". split; [done|]. do 5 right. by left.
      - by apply elem_of_nil in Hthree. }
    apply (Hall (name, value)); [|done].
    by apply kwargs_decoder_elem_of.
  - rewrite bool_decide_eq_true_2; [done|].
    apply Forall_forall. intros [name value] Hin Hname. cbn [fst] in Hname.
    apply kwargs_decoder_elem_of in Hin; [|done].
    assert (("decoder_" +:+ name) ∈ kwargs.*1) as Hkey.
    { apply list_elem_of_fmap. by exists ("decoder_" +:+ name, value). }
    pose proof (Hnames _ Hkey) as Hfree. apply Hclash.
    exists ("decoder_" +:+ name). split; [done|].
    unfold encoderdecoder.forward_parameters in Hfree.
    repeat (apply elem_of_cons in Hname as [->|Hname]).
    + destruct Hfree. right. by left.
    + destruct Hfree. do 2 right. by left.
    + destruct Hfree. do 3 right. by left.
    + by left.
    + right. by left.
    + do 2 right. by left.
    + by apply elem_of_nil in Hname.
Qed.

(** X18.  The exceptions [forward] raises itself, for keyword arguments
    as a call can leave them in [kwargs].  It raises [ValueError]
    exactly when neither [encoder_outputs] nor [pixel_values] is given.
    Otherwise it raises [AttributeError] exactly when the hidden sizes
    of encoder and decoder differ, [cross_attention_hidden_size] is
    [None] and the object has no [enc_to_dec_proj] (the class sets
    none).  Otherwise it raises [TypeError] exactly when [kwargs] holds
    [decoder_encoder_hidden_states], [decoder_encoder_attention_mask] or
    [decoder_use_cache]: without the prefix such a name repeats a
    keyword the decoder call writes out. *)
Theorem forward_exceptions {Tensor Value EncoderOutput : Type}
    (self : @encoderdecoder.LayoutEncoderDecoderModel Tensor Value EncoderOutput)
    (pixel_values : option Tensor)
    (decoder_input_ids decoder_cache_position decoder_attention_mask : option Value)
    (encoder_outputs : option (@encoderdecoder.EncoderOutputs Tensor EncoderOutput))
    (use_cache : option Value) (kwargs : list (string * Value))
    (e : encoderdecoder.exception) :
  encoderdecoder.received kwargs →
  let nothing_given := encoder_outputs = None ∧ pixel_values = None in
  let projection_missing :=
    encoderdecoder.encoder_hidden_size self ≠ encoderdecoder.decoder_hidden_size self ∧
    encoderdecoder.cross_attention_hidden_size self = None ∧
    encoderdecoder.enc_to_dec_proj self = None in
  encoderdecoder.forward self pixel_values decoder_input_ids
    decoder_cache_position decoder_attention_mask encoder_outputs use_cache
    kwargs = encoderdecoder.Raise e ↔
  (e = encoderdecoder.ValueError ∧ nothing_given) ∨
  (e = encoderdecoder.AttributeError ∧ ¬ nothing_given ∧ projection_missing) ∨
  (e = encoderdecoder.TypeError ∧ ¬ nothing_given ∧ ¬ projection_missing ∧
   ∃ argument, argument ∈ kwargs.*1 ∧
     argument ∈ ["decoder_encoder_hidden_states";
                "decoder_encoder_attention_mask"; "decoder_use_cache"]).
Proof.
  intros Hreceived nothing_given projection_missing.
  subst nothing_given projection_missing.
  unfold encoderdecoder.forward.
  rewrite (decoder_call_collision kwargs Hreceived).
  assert ((encoder_outputs = None ∧ pixel_values = None) ∨
          ∃ given, (match encoder_outputs with
                    | None =>
                        match pixel_values with
                        | None => encoderdecoder.Raise encoderdecoder.ValueError
                        | Some pixel_values =>
                            _ ← encoderdecoder.call_keywords ["pixel_values"]
                                  (encoderdecoder.kwargs_encoder kwargs);
                            encoderdecoder.Return
                              (encoderdecoder.encoder self pixel_values
                                 (encoderdecoder.kwargs_encoder kwargs))
                        end
                    | Some (encoderdecoder.AsTuple items) =>
                        encoderdecoder.Return (encoderdecoder.BaseModelOutput self items)
                    | Some (encoderdecoder.AsOutput output) =>
                        encoderdecoder.Return output
                    end) = encoderdecoder.Return given ∧
                   ¬ (encoder_outputs = None ∧ pixel_values = None))
    as [[-> ->]|(given & -> & Hgiven)].
  { destruct encoder_outputs as [[items|output]|].
    - right. eexists. split; [done|]. by intros [? _].
    - right. eexists. split; [done|]. by intros [? _].
    - destruct pixel_values as [pixels|]; [|by left].
      right. rewrite (encoder_call_accepts kwargs Hreceived).
      eexists. split; [done|]. by intros [_ ?]. }
  { simpl. forward_case. }
  simpl.
  destruct (decide (encoderdecoder.encoder_hidden_size self
                    ≠ encoderdecoder.decoder_hidden_size self)) as [Hsizes|Hsizes];
    [rewrite (bool_decide_eq_true_2 _ Hsizes)
    |rewrite (bool_decide_eq_false_2 _ Hsizes)]; simpl.
  - destruct (encoderdecoder.cross_attention_hidden_size self) as [cross|] eqn:Hcross;
      simpl.
    + case_decide as Hclash; rewrite Exists_exists in Hclash; simpl; forward_case.
    + destruct (encoderdecoder.enc_to_dec_proj self) as [proj|] eqn:Hproj; simpl.
      * case_decide as Hclash; rewrite Exists_exists in Hclash; simpl; forward_case.
      * forward_case.
  - case_decide as Hclash; rewrite Exists_exists in Hclash; simpl; forward_case.
Qed.

Lemma forward_exceptions_witness :
  let self : @encoderdecoder.LayoutEncoderDecoderModel Z Z Z :=
    {| encoderdecoder.encoder := λ pixels _, pixels;
       encoderdecoder.decoder := λ call,
         {| encoderdecoder.decoder_bbox_logits := encoderdecoder.encoder_hidden_states call;
            encoderdecoder.decoder_class_logits := 0;
            encoderdecoder.hidden_states := 0 |};
       encoderdecoder.enc_to_dec_proj := None;
       encoderdecoder.encoder_hidden_size := 1024;
       encoderdecoder.decoder_hidden_size := 1024;
       encoderdecoder.cross_attention_hidden_size := None;
       encoderdecoder.BaseModelOutput := λ items, default 0 (head items);
       encoderdecoder.first_item := λ output, output;
       encoderdecoder.last_hidden_state := λ output, output |} in
  let kwargs := [("decoder_input_boxes", 1); ("decoder_use_cache", 2)] in
  encoderdecoder.received kwargs ∧
  encoderdecoder.forward self (Some 7) None None None None None kwargs
  = encoderdecoder.Raise encoderdecoder.TypeError.
Proof.
  intros self kwargs.
  assert (encoderdecoder.received kwargs) as Hreceived.
  { split.
    - repeat constructor; rewrite ?not_elem_of_cons; split_and?;
        (discriminate || apply not_elem_of_nil).
    - repeat constructor; unfold encoderdecoder.forward_parameters;
        rewrite ?not_elem_of_cons; split_and?;
        (discriminate || apply not_elem_of_nil). }
  split; [exact Hreceived|].
  apply (forward_exceptions self (Some 7) None None None None None kwargs
           encoderdecoder.TypeError Hreceived).
  right. right. split_and!; [done|by intros [_ ?]|by intros [? _]|].
  exists "decoder_use_cache". split; [by right; left|by do 2 right; left].
Defined.

(** X19.  With [encoder_outputs] handed in, [forward] does not run the
    encoder: the outcome is the same for any encoder, any
    [pixel_values] and any keyword arguments without the "decoder_"
    prefix. *)
Theorem forward_given_encoder_outputs {Tensor Value EncoderOutput : Type}
    (self : @encoderdecoder.LayoutEncoderDecoderModel Tensor Value EncoderOutput)
    (encoder' : Tensor → encoderdecoder.Kwargs Value → EncoderOutput)
    (pixel_values pixel_values' : option Tensor)
    (decoder_input_ids decoder_cache_position decoder_attention_mask : option Value)
    (given : @encoderdecoder.EncoderOutputs Tensor EncoderOutput)
    (use_cache : option Value) (kwargs kwargs' : list (string * Value)) :
  filter (λ item, encoderdecoder.startswith item.1 "decoder_") kwargs
  = filter (λ item, encoderdecoder.startswith item.1 "decoder_") kwargs' →
  encoderdecoder.forward self pixel_values decoder_input_ids
    decoder_cache_position decoder_attention_mask (Some given) use_cache kwargs
  = encoderdecoder.forward (encoderdecoder.with_encoder self encoder')
      pixel_values' decoder_input_ids decoder_cache_position
      decoder_attention_mask (Some given) use_cache kwargs'.
Proof.
  intros Hsame. unfold encoderdecoder.forward.
  rewrite (kwargs_decoder_filter kwargs), (kwargs_decoder_filter kwargs'), Hsame.
  by destruct given.
Qed.

Lemma forward_given_encoder_outputs_witness :
  let self : @encoderdecoder.LayoutEncoderDecoderModel Z Z Z :=
    {| encoderdecoder.encoder := λ pixels _, pixels;
       encoderdecoder.decoder := λ call,
         {| encoderdecoder.decoder_bbox_logits := encoderdecoder.encoder_hidden_states call;
            encoderdecoder.decoder_class_logits := 0;
            encoderdecoder.hidden_states := 0 |};
       encoderdecoder.enc_to_dec_proj := None;
       encoderdecoder.encoder_hidden_size := 1024;
       encoderdecoder.decoder_hidden_size := 1024;
       encoderdecoder.cross_attention_hidden_size := None;
       encoderdecoder.BaseModelOutput := λ items, default 0 (head items);
       encoderdecoder.first_item := λ output, output;
       encoderdecoder.last_hidden_state := λ output, output |} in
  encoderdecoder.forward self (Some 7) None None None
    (Some (encoderdecoder.AsTuple [5])) None
    [("decoder_input_boxes", 1); ("output_attentions", 2)]
  = encoderdecoder.forward (encoderdecoder.with_encoder self (λ _ _, 99))
      None None None None (Some (encoderdecoder.AsTuple [5])) None
      [("decoder_input_boxes", 1)].
Proof.
  intros self.
  by apply (forward_given_encoder_outputs self (λ _ _, 99) (Some 7) None
              None None None (encoderdecoder.AsTuple [5]) None
              [("decoder_input_boxes", 1); ("output_attentions", 2)]
              [("decoder_input_boxes", 1)]).
Defined.
